(** * Budget timeline engine: recurrence expansion and balance timeline

    A shallow embedding of the computational core of [src/api.py]
    ([BudgetAPI.expand_recurring_event], [BudgetAPI.get_events_in_range] and
    [BudgetAPI.calculate_balance_timeline]) together with the properties
    the specification states about it, and of the database-free parts of
    [BudgetAPI.update_event] and of the request handlers of [src/server.py]
    ([handle_get_timeline], [handle_update_event]).

    Modelling conventions.
    - A [datetime] is a calendar date (year, month, day), that is, the
      value [datetime.fromisoformat] returns for a text without time of
      day or with the time 00:00:00; a stored text with another time of
      day is outside the model.  The calendar is the proleptic Gregorian
      one with an unbounded year: the range check of CPython's [datetime]
      (MINYEAR = 1, MAXYEAR = 9999) is not modelled.
    - The ['date'] entry of an occurrence is a string, and it is the key by
      which occurrences are sorted and grouped: [strftime('%Y-%m-%d')] of
      the cursor for a recurring occurrence, the stored [event_date] text
      for a one-off one.  [strftime] is a parameter of the model (class
      [DateFormat]); nothing is assumed about it except where a theorem
      says so.  An event holds its dates as the values [fromisoformat]
      gives, and [event_date] also as the stored text.
    - A column that may hold NULL is an [option].  The recurrence pattern
      is a string; a NULL pattern behaves like any string that is none of
      the six pattern names.
    - Amounts and balances are Python floats in the source.  The model is
      parametric in the number type: it only needs the addition [+] and
      [round(_, 2)], collected in the class [Numeric].
    - The two [while] loops of the expander and the day-by-day walk take a
      [fuel] argument; [OutOfFuel] is the outcome of a run that needs more
      iterations than the fuel allows.  A Python exception is [Raise]. *)

From Stdlib Require Import ZArith List Bool Lia Sorted Permutation Ascii String.
From stdpp Require Import base option list gmap strings pretty.
Import ListNotations.

Local Open Scope Z_scope.

(* ================================================================== *)
(** * Part I: the model                                                 *)
(* ================================================================== *)

(** ** Calendar dates *)

Record datetime : Type := mkdatetime { year : Z; month : Z; day : Z }.

#[global] Instance datetime_eq_dec : EqDecision datetime.
Proof. solve_decision. Defined.

#[global] Instance datetime_countable : Countable datetime.
Proof.
  refine (inj_countable'
            (fun d => (year d, month d, day d))
            (fun t => mkdatetime t.1.1 t.1.2 t.2) _).
  intros []; reflexivity.
Defined.

(** Comparison of two [datetime] values: lexicographic on the fields. *)
Definition dt_compare (a b : datetime) : comparison :=
  match year a ?= year b with
  | Eq => match month a ?= month b with
          | Eq => day a ?= day b
          | c => c
          end
  | c => c
  end.

Definition dt_ltb (a b : datetime) : bool :=
  match dt_compare a b with Lt => true | _ => false end.

Definition dt_leb (a b : datetime) : bool :=
  match dt_compare a b with Gt => false | _ => true end.

(** [a >= b] *)
Definition dt_geb (a b : datetime) : bool := dt_leb b a.

(** Python's [min(a, b)]: [b] when [b < a], otherwise [a]. *)
Definition dt_min (a b : datetime) : datetime :=
  if dt_ltb b a then b else a.

(** [year % 4 == 0 and (year % 100 != 0 or year % 400 == 0)] *)
Definition is_leap (y : Z) : bool :=
  (y mod 4 =? 0) && (negb (y mod 100 =? 0) || (y mod 400 =? 0)).

(** The list literal of month lengths that the expander builds in place. *)
Definition month_lengths (y : Z) : list Z :=
  [31; if is_leap y then 29 else 28; 31; 30; 31; 30; 31; 31; 30; 31; 30; 31].

(** [month_lengths(year)[month - 1]] *)
Definition days_in_month (y m : Z) : Z :=
  nth (Z.to_nat (m - 1)) (month_lengths y) 0.

(** The invariant of a [datetime] object. *)
Definition valid_date (d : datetime) : Prop :=
  1 <= month d <= 12 /\ 1 <= day d <= days_in_month (year d) (month d).

Definition valid_dateb (d : datetime) : bool :=
  (1 <=? month d) && (month d <=? 12) && (1 <=? day d)
  && (day d <=? days_in_month (year d) (month d)).

(** *** Day arithmetic ([timedelta]) *)

Definition next_day (d : datetime) : datetime :=
  if day d <? days_in_month (year d) (month d)
  then mkdatetime (year d) (month d) (day d + 1)
  else if month d <? 12
       then mkdatetime (year d) (month d + 1) 1
       else mkdatetime (year d + 1) 1 1.

Definition prev_day (d : datetime) : datetime :=
  if 1 <? day d
  then mkdatetime (year d) (month d) (day d - 1)
  else if 1 <? month d
       then mkdatetime (year d) (month d - 1)
                       (days_in_month (year d) (month d - 1))
       else mkdatetime (year d - 1) 12 31.

(** [d + timedelta(days=n)]: the date [n] days after [d] (before, when [n]
    is negative). *)
Definition add_days (n : Z) (d : datetime) : datetime :=
  if 0 <=? n
  then Nat.iter (Z.to_nat n) next_day d
  else Nat.iter (Z.to_nat (- n)) prev_day d.

(** [datetime.toordinal]: the proleptic Gregorian ordinal, as CPython
    computes it (days before the year, days before the month, day). *)
Definition days_before_year (y : Z) : Z :=
  (y - 1) * 365 + (y - 1) / 4 - (y - 1) / 100 + (y - 1) / 400.

Definition days_before_month (y m : Z) : Z :=
  fold_right Z.add 0 (firstn (Z.to_nat (m - 1)) (month_lengths y)).

Definition days_in_year (y : Z) : Z := if is_leap y then 366 else 365.

Definition toordinal (d : datetime) : Z :=
  days_before_year (year d) + days_before_month (year d) (month d) + day d.

(** Fuel that lets both loops of one expansion run to their end. *)
Definition expansion_fuel (rec_start start_date end_date : datetime) : nat :=
  S (Z.to_nat (Z.max (toordinal start_date) (toordinal end_date)
               - toordinal rec_start + 2)).

(** ** Calendar math of the expander

    The [if/elif] chain that computes the next occurrence.  The source has
    two textually identical copies of it, one in each loop; [None] stands
    for the final [else: break]. *)

Definition add_months (k : Z) (current : datetime) : datetime :=
  let month0 := month current + k in
  let year' := year current + (month0 - 1) / 12 in
  let month' := ((month0 - 1) mod 12) + 1 in
  let day' := Z.min (day current) (days_in_month year' month') in
  mkdatetime year' month' day'.

Definition add_years (k : Z) (current : datetime) : datetime :=
  let year' := year current + k in
  let month' := month current in
  let day' := Z.min (day current) (days_in_month year' month') in
  mkdatetime year' month' day'.

Definition advance (pattern : string) (interval : Z) (current : datetime)
  : option datetime :=
  if String.eqb pattern "daily" then Some (add_days interval current)
  else if String.eqb pattern "weekly" then Some (add_days (7 * interval) current)
  else if String.eqb pattern "biweekly" then Some (add_days (7 * 2) current)
  else if String.eqb pattern "monthly" then Some (add_months interval current)
  else if String.eqb pattern "quarterly" then Some (add_months (3 * interval) current)
  else if String.eqb pattern "yearly" then Some (add_years interval current)
  else None.

Definition known_pattern (pattern : string) : bool :=
  String.eqb pattern "daily" || String.eqb pattern "weekly"
  || String.eqb pattern "biweekly" || String.eqb pattern "monthly"
  || String.eqb pattern "quarterly" || String.eqb pattern "yearly".

(** ** Outcomes of a computation *)

Inductive exn : Type :=
| TypeError.   (* [datetime.fromisoformat(None)] *)

Inductive outcome (A : Type) : Type :=
| Ok (a : A)
| Raise (e : exn)
| OutOfFuel.
Arguments Ok {A} a.
Arguments Raise {A} e.
Arguments OutOfFuel {A}.

#[global] Instance outcome_ret : MRet outcome := fun A a => Ok a.
#[global] Instance outcome_bind : MBind outcome := fun A B f c =>
  match c with
  | Ok a => f a
  | Raise e => Raise e
  | OutOfFuel => OutOfFuel
  end.

(** ** Numbers *)

Class Numeric (A : Type) : Type := {
  amount_add : A -> A -> A;   (* [a + b] *)
  round2 : A -> A             (* [round(a, 2)] *)
}.

(** ** Date strings *)

(** [d.strftime('%Y-%m-%d')] *)
Class DateFormat : Type := strftime : datetime -> string.

Section Engine.

Context {Amount : Type} `{Numeric Amount} `{DateFormat}.

(** ** Events, occurrences, timeline points *)

Record event : Type := mkevent {
  ev_id : Z;
  ev_description : string;
  ev_amount : Amount;
  event_date : option datetime;     (* [fromisoformat(event['event_date'])] *)
  event_date_str : string;          (* [event['event_date']], the stored text *)
  is_recurring : bool;
  recurrence_pattern : string;
  recurrence_interval : option Z;
  recurrence_start : option datetime;
  recurrence_end : option datetime;
  ev_comment : option string;
  ev_labels : list string
}.

(** An occurrence is the dictionary the code builds, with one more field:
    [occ_date_str] is its ['date'] entry, and [occ_date] records the
    [datetime] that the entry was made for ([current] in the expander,
    [event_dt] for a one-off event).  No function of the model reads
    [occ_date]; the properties below use it to say which day an occurrence
    stands for. *)
Record occurrence : Type := mkoccurrence {
  occ_id : Z;
  occ_description : string;
  occ_amount : Amount;
  occ_date : datetime;
  occ_date_str : string;
  occ_comment : option string;
  occ_is_recurring : bool;
  occ_labels : list string
}.

(** A timeline point is held with the day it is for; its ['date'] entry is
    [strftime] of that day. *)
Record timeline_point : Type := mkpoint {
  tp_date : datetime;
  tp_balance : Amount
}.

Record timeline_result : Type := mkresult {
  timeline : list timeline_point;
  events : list occurrence;
  starting_balance : Amount;
  ending_balance : Amount
}.

(** ** [expand_recurring_event] *)

(** The dictionary appended to [occurrences] in the emission loop. *)
Definition recurring_occurrence (ev : event) (current : datetime) : occurrence :=
  {| occ_id := ev_id ev;
     occ_description := ev_description ev;
     occ_amount := ev_amount ev;
     occ_date := current;
     occ_date_str := strftime current;
     occ_comment := ev_comment ev;
     occ_is_recurring := true;
     occ_labels := ev_labels ev |}.

(** [event['recurrence_interval'] or 1] *)
Definition effective_interval (ev : event) : Z :=
  match recurrence_interval ev with
  | Some i => if i =? 0 then 1 else i
  | None => 1
  end.

(** First loop: [while current < start_date and current <= rec_end]. *)
Fixpoint fast_forward (fuel : nat) (pattern : string) (interval : Z)
    (start_date rec_end current : datetime) : outcome datetime :=
  match fuel with
  | O => OutOfFuel
  | S fuel' =>
      if dt_ltb current start_date && dt_leb current rec_end then
        match advance pattern interval current with
        | Some next =>
            fast_forward fuel' pattern interval start_date rec_end next
        | None => Ok current
        end
      else Ok current
  end.

(** Second loop: [while current <= min(rec_end, end_date)]. *)
Fixpoint emit (fuel : nat) (ev : event) (pattern : string) (interval : Z)
    (start_date rec_end end_date current : datetime)
    (occurrences : list occurrence) : outcome (list occurrence) :=
  match fuel with
  | O => OutOfFuel
  | S fuel' =>
      if dt_leb current (dt_min rec_end end_date) then
        let occurrences' :=
          if dt_geb current start_date
          then occurrences ++ [recurring_occurrence ev current]
          else occurrences in
        match advance pattern interval current with
        | Some next =>
            emit fuel' ev pattern interval start_date rec_end end_date
                 next occurrences'
        | None => Ok occurrences'
        end
      else Ok occurrences
  end.

Definition expand_recurring_event (fuel : nat) (ev : event)
    (start_date end_date : datetime) : outcome (list occurrence) :=
  match recurrence_start ev with
  | None => Raise TypeError
  | Some rec_start =>
      let rec_end := default end_date (recurrence_end ev) in
      let pattern := recurrence_pattern ev in
      let interval := effective_interval ev in
      current ← fast_forward fuel pattern interval start_date rec_end rec_start;
      emit fuel ev pattern interval start_date rec_end end_date current []
  end.

(** ** [get_events_in_range] *)

(** The guard [if label_filter: if not any(label in event['labels'] for
    label in label_filter): continue]; [true] when the event is kept. *)
Definition passes_label_filter (label_filter : option (list string))
    (ev : event) : bool :=
  match label_filter with
  | None => true
  | Some [] => true
  | Some lf => existsb (fun label => bool_decide (label ∈ ev_labels ev)) lf
  end.

(** The dictionary appended for a one-off event: its ['date'] entry is
    [event['event_date']], the stored text, as it is. *)
Definition one_off_occurrence (ev : event) (event_dt : datetime) : occurrence :=
  {| occ_id := ev_id ev;
     occ_description := ev_description ev;
     occ_amount := ev_amount ev;
     occ_date := event_dt;
     occ_date_str := event_date_str ev;
     occ_comment := ev_comment ev;
     occ_is_recurring := false;
     occ_labels := ev_labels ev |}.

(** The [for event in events] loop, threading [all_occurrences]. *)
Fixpoint collect (fuel : nat) (evs : list event) (start_dt end_dt : datetime)
    (label_filter : option (list string)) (all_occurrences : list occurrence)
  : outcome (list occurrence) :=
  match evs with
  | [] => Ok all_occurrences
  | ev :: rest =>
      if negb (passes_label_filter label_filter ev) then
        collect fuel rest start_dt end_dt label_filter all_occurrences
      else if is_recurring ev then
        occurrences ← expand_recurring_event fuel ev start_dt end_dt;
        collect fuel rest start_dt end_dt label_filter
                (all_occurrences ++ occurrences)
      else
        match event_date ev with
        | Some event_dt =>
            if dt_leb start_dt event_dt && dt_leb event_dt end_dt then
              collect fuel rest start_dt end_dt label_filter
                      (all_occurrences ++ [one_off_occurrence ev event_dt])
            else collect fuel rest start_dt end_dt label_filter all_occurrences
        | None => collect fuel rest start_dt end_dt label_filter all_occurrences
        end
  end.

(** [list.sort(key=lambda x: x['date'])]: a stable sort by the ['date']
    string, in the order of Python strings. *)
Fixpoint insert_by_date (o : occurrence) (l : list occurrence) : list occurrence :=
  match l with
  | [] => [o]
  | o' :: l' =>
      if String.leb (occ_date_str o) (occ_date_str o') then o :: o' :: l'
      else o' :: insert_by_date o l'
  end.

Definition sort_by_date (l : list occurrence) : list occurrence :=
  fold_right insert_by_date [] l.

Definition get_events_in_range (fuel : nat) (evs : list event)
    (start_dt end_dt : datetime) (label_filter : option (list string))
  : outcome (list occurrence) :=
  all_occurrences ← collect fuel evs start_dt end_dt label_filter [];
  mret (sort_by_date all_occurrences).

(** ** [calculate_balance_timeline] *)

(** The dictionary [events_by_date], built by appending each occurrence to
    the list stored under its ['date'] string. *)
Definition group_by_date (occs : list occurrence)
  : gmap string (list occurrence) :=
  fold_left
    (fun events_by_date o =>
       <[occ_date_str o :=
           default [] (events_by_date !! occ_date_str o) ++ [o]]>
         events_by_date)
    occs ∅.

(** [for event in events_by_date[date_str]: current_balance += event['amount']] *)
Definition apply_events (occs : list occurrence) (current_balance : Amount)
  : Amount :=
  fold_left (fun b o => amount_add b (occ_amount o)) occs current_balance.

(** The loop [while current_date <= end_dt]; the dictionary is read at
    [date_str = current_date.strftime('%Y-%m-%d')]. *)
Fixpoint walk (fuel : nat) (events_by_date : gmap string (list occurrence))
    (end_dt current_date : datetime) (current_balance : Amount)
    (tl : list timeline_point) : outcome (list timeline_point * Amount) :=
  match fuel with
  | O => OutOfFuel
  | S fuel' =>
      if dt_leb current_date end_dt then
        let current_balance' :=
          match events_by_date !! strftime current_date with
          | Some todays => apply_events todays current_balance
          | None => current_balance
          end in
        walk fuel' events_by_date end_dt (add_days 1 current_date)
             current_balance'
             (tl ++ [mkpoint current_date (round2 current_balance')])
      else Ok (tl, current_balance)
  end.

Definition calculate_balance_timeline (fuel : nat) (evs : list event)
    (start_dt end_dt : datetime) (starting : Amount)
    (label_filter : option (list string)) : outcome timeline_result :=
  occs ← get_events_in_range fuel evs start_dt end_dt label_filter;
  '(tl, current_balance) ← walk fuel (group_by_date occs) end_dt start_dt starting [];
  mret {| timeline := tl;
          events := occs;
          starting_balance := starting;
          ending_balance := round2 current_balance |}.

(** The entry a dictionary of lists holds for a key: none for the empty list. *)
Definition lookup_of_list (l : list occurrence) : option (list occurrence) :=
  match l with [] => None | _ => Some l end.

(** The same event with another [recurrence_interval]. *)
Definition with_interval (interval : option Z) (ev : event) : event :=
  {| ev_id := ev_id ev;
     ev_description := ev_description ev;
     ev_amount := ev_amount ev;
     event_date := event_date ev;
     event_date_str := event_date_str ev;
     is_recurring := is_recurring ev;
     recurrence_pattern := recurrence_pattern ev;
     recurrence_interval := interval;
     recurrence_start := recurrence_start ev;
     recurrence_end := recurrence_end ev;
     ev_comment := ev_comment ev;
     ev_labels := ev_labels ev |}.

(** ** Well-formed events and fuel bounds

    A recurring event the expander can process: it has a recurrence start
    and the interval it steps by is positive. *)
Definition expandable (ev : event) : Prop :=
  is_recurring ev = true ->
  exists rec_start, recurrence_start ev = Some rec_start /\
                    valid_date rec_start /\ 1 <= effective_interval ev.


Definition event_fuel (start_dt end_dt : datetime) (ev : event) : nat :=
  match recurrence_start ev with
  | Some rec_start => expansion_fuel rec_start start_dt end_dt
  | None => O
  end.

Definition collect_fuel (evs : list event) (start_dt end_dt : datetime) : nat :=
  fold_right (fun ev n => Nat.max (event_fuel start_dt end_dt ev) n) O evs.

Definition timeline_fuel (evs : list event) (start_dt end_dt : datetime) : nat :=
  Nat.max (collect_fuel evs start_dt end_dt)
          (S (Z.to_nat (toordinal end_dt - toordinal start_dt + 1))).

(** Occurrences in the order of their ['date'] strings. *)
Definition date_str_le (o1 o2 : occurrence) : Prop :=
  String.leb (occ_date_str o1) (occ_date_str o2) = true.


(** The occurrences that the walk applies on a day: those whose ['date']
    string is the formatted day. *)
Definition applied_on (occs : list occurrence) (day : datetime)
  : list occurrence :=
  filter (fun o => occ_date_str o = strftime day) occs.

Definition in_window (start_dt end_dt : datetime) (o : occurrence) : Prop :=
  dt_leb start_dt (occ_date o) = true /\ dt_leb (occ_date o) end_dt = true.

End Engine.

Arguments event Amount : clear implicits.
Arguments occurrence Amount : clear implicits.
Arguments timeline_point Amount : clear implicits.
Arguments timeline_result Amount : clear implicits.

(** The first [n] days from [start], and the days of a window. *)
Definition days_from (start : datetime) (n : nat) : list datetime :=
  map (fun k => add_days (Z.of_nat k) start) (seq 0 n).

Definition window_days (start_dt end_dt : datetime) : list datetime :=
  days_from start_dt (Z.to_nat (toordinal end_dt - toordinal start_dt + 1)).

(** A concrete [strftime('%Y-%m-%d')], used to run the model: the year in
    decimal, month and day on two digits.  (The C library decides whether
    a year below 1000 is padded; from 1000 to 9999 there is one form.) *)
Definition two_digits (n : Z) : string :=
  String (ascii_of_nat (48 + Z.to_nat (n / 10)))
         (String (ascii_of_nat (48 + Z.to_nat (n mod 10))) EmptyString).

#[global] Instance decimal_strftime : DateFormat := fun d =>
  String.append (pretty (year d))
    (String.append "-"
       (String.append (two_digits (month d))
          (String.append "-" (two_digits (day d))))).

(** Whole-unit amounts, used to run the model on concrete inputs. *)
#[global] Instance Z_numeric : Numeric Z :=
  {| amount_add := Z.add; round2 := fun a => a |}.

Definition ymd (y m d : Z) : datetime := mkdatetime y m d.

(** A recurring event with a given recurrence rule. *)
Definition sample_event (pattern : string) (interval : option Z)
    (rec_start rec_end : option datetime) : event Z :=
  {| ev_id := 1; ev_description := "rent"; ev_amount := -50;
     event_date := None; event_date_str := ""; is_recurring := true;
     recurrence_pattern := pattern; recurrence_interval := interval;
     recurrence_start := rec_start; recurrence_end := rec_end;
     ev_comment := None; ev_labels := ["rent"; "fixed"]%list |}.

(** A one-off event whose date is stored in the [strftime] form. *)
Definition sample_one_off (amount : Z) (date : datetime) : event Z :=
  {| ev_id := 2; ev_description := "groceries"; ev_amount := amount;
     event_date := Some date; event_date_str := strftime date;
     is_recurring := false;
     recurrence_pattern := ""; recurrence_interval := Some 1;
     recurrence_start := None; recurrence_end := None;
     ev_comment := None; ev_labels := ["food"]%list |}.

(** A one-off event of -50 dated 2025-01-02 and stored with a time of day;
    [fromisoformat] reads the text as midnight of that day. *)
Definition midnight_one_off : event Z :=
  {| ev_id := 4; ev_description := "fee"; ev_amount := -50;
     event_date := Some (ymd 2025 1 2);
     event_date_str := "2025-01-02T00:00:00";
     is_recurring := false;
     recurrence_pattern := ""; recurrence_interval := Some 1;
     recurrence_start := None; recurrence_end := None;
     ev_comment := None; ev_labels := ["fees"]%list |}.

Definition monthly_jan31 : event Z :=
  sample_event "monthly" (Some 1) (Some (ymd 2024 1 31)) None.

(** ** Further notions used to state properties of the engine *)

(** Occurrences in strictly ascending date order. *)
Definition date_lt {Amount : Type} (o1 o2 : occurrence Amount) : Prop :=
  dt_ltb (occ_date o1) (occ_date o2) = true.

(** The same event with another [recurrence_pattern]. *)
Definition with_pattern {Amount : Type} (pattern : string) (ev : event Amount)
  : event Amount :=
  {| ev_id := ev_id ev;
     ev_description := ev_description ev;
     ev_amount := ev_amount ev;
     event_date := event_date ev;
     event_date_str := event_date_str ev;
     is_recurring := is_recurring ev;
     recurrence_pattern := pattern;
     recurrence_interval := recurrence_interval ev;
     recurrence_start := recurrence_start ev;
     recurrence_end := recurrence_end ev;
     ev_comment := ev_comment ev;
     ev_labels := ev_labels ev |}.

(** An occurrence carries the fields of the event it comes from. *)
Definition occurrence_of {Amount : Type} (ev : event Amount)
    (o : occurrence Amount) : Prop :=
  occ_id o = ev_id ev /\ occ_description o = ev_description ev /\
  occ_amount o = ev_amount ev /\ occ_comment o = ev_comment ev /\
  occ_is_recurring o = is_recurring ev /\ occ_labels o = ev_labels ev.

(** ** [server.py]: the label filter of a timeline request

    [handle_get_timeline] parses the query string with [parse_qs], which
    leaves the blank values out, reads [labels = params.get('labels', [])],
    the list of the values that remain for the parameter, and passes to the
    engine [labels[0].split(',')] when that list and its first value are
    not empty, [None] otherwise. *)

(** [s.split(sep)] for a one-character separator. *)
Fixpoint split_on (sep : ascii) (s : string) : list string :=
  match s with
  | EmptyString => [EmptyString]
  | String c rest =>
      if Ascii.eqb c sep then EmptyString :: split_on sep rest
      else match split_on sep rest with
           | piece :: pieces => String c piece :: pieces
           | [] => [String c EmptyString]
           end
  end.

(** [params.get('labels', [])] for the values that the request gives to
    [labels], in order: [parse_qs] leaves the blank ones out. *)
Definition labels_param (values : list string) : list string :=
  List.filter (fun v => negb (String.eqb v "")) values.

(** [labels[0].split(',') if labels and labels[0] else None], for the list
    [labels] that [params.get('labels', [])] returned. *)
Definition request_label_filter (labels : list string) : option (list string) :=
  match labels with
  | first :: _ =>
      if String.eqb first "" then None else Some (split_on ","%char first)
  | [] => None
  end.

(** The label filter of the request whose [labels] values are [values]. *)
Definition timeline_label_filter (values : list string)
  : option (list string) :=
  request_label_filter (labels_param values).

(** [c in s] for a character [c]. *)
Fixpoint has_char (c : ascii) (s : string) : bool :=
  match s with
  | EmptyString => false
  | String c' rest => Ascii.eqb c' c || has_char c rest
  end.

(** ** [update_event]: the UPDATE statement

    The keyword arguments are the items of a dictionary, in insertion
    order; the values are of an arbitrary type [V].  The parameter list
    of the statement holds the values kept and then the event id. *)

Definition allowed_fields : list string :=
  ["description"; "amount"; "event_date"; "is_recurring";
   "recurrence_pattern"; "recurrence_interval"; "recurrence_start";
   "recurrence_end"; "comment"].

Inductive sql_param (V : Type) : Type :=
| ParamValue (v : V)
| ParamId (event_id : Z).
Arguments ParamValue {V} v.
Arguments ParamId {V} event_id.

(** The loop [for key, value in kwargs.items()], threading [updates] and
    [values]. *)
Definition collect_updates {V : Type} (kwargs : list (string * V))
  : list string * list (sql_param V) :=
  fold_left
    (fun '(updates, values) '(key, value) =>
       if bool_decide (key ∈ allowed_fields)
       then (updates ++ [String.append key " = ?"],
             values ++ [ParamValue value])
       else (updates, values))
    kwargs ([], []).

(** The statement passed to [cursor.execute] with its parameters, or
    [None] when [updates] is empty and nothing is executed. *)
Definition update_statement {V : Type} (event_id : Z) (kwargs : list (string * V))
  : option (string * list (sql_param V)) :=
  let '(updates, values) := collect_updates kwargs in
  match updates with
  | [] => None
  | _ => Some (String.append "UPDATE account_events SET "
                 (String.append (String.concat ", " updates) " WHERE id = ?"),
               values ++ [ParamId event_id])
  end.

(** The keyword arguments whose key is an allowed field. *)
Definition kept_items {V : Type} (kwargs : list (string * V))
  : list (string * V) :=
  List.filter (fun kv => bool_decide (fst kv ∈ allowed_fields)) kwargs.

(** Number of occurrences of a character in a string. *)
Fixpoint count_char (c : ascii) (s : string) : nat :=
  match s with
  | EmptyString => O
  | String c' rest => (if Ascii.eqb c' c then 1 else 0) + count_char c rest
  end.

(** ** [server.py]: the keyword arguments built by [handle_update_event]

    The handler looks for ten keys in the request body, in a fixed order,
    and copies the value of each key it finds into [update_data]; the
    amount goes through [float] and [is_recurring] becomes 1 or 0.  The
    body is a dictionary with values of an arbitrary type [V]; [float_of]
    is [float], with [None] when it raises, [truthy] is the truth value of
    a Python object and [of_int] embeds the integers. *)

Definition handler_fields : list string :=
  ["description"; "amount"; "event_date"; "is_recurring";
   "recurrence_pattern"; "recurrence_interval"; "recurrence_start";
   "recurrence_end"; "comment"; "labels"].

Definition convert_field {V : Type} (float_of : V -> option V)
    (truthy : V -> bool) (of_int : Z -> V) (key : string) (v : V) : option V :=
  if String.eqb key "amount" then float_of v
  else if String.eqb key "is_recurring"
       then Some (of_int (if truthy v then 1 else 0))
       else Some v.

(** The sequence of [if key in data: update_data[key] = ...] statements,
    threading [update_data]; [None] when [float] raises. *)
Definition build_update_data {V : Type} (float_of : V -> option V)
    (truthy : V -> bool) (of_int : Z -> V) (data : gmap string V)
  : option (list (string * V)) :=
  fold_left
    (fun update_data key =>
       match update_data with
       | Some items =>
           match data !! key with
           | Some v =>
               match convert_field float_of truthy of_int key v with
               | Some v' => Some (items ++ [(key, v')])
               | None => None
               end
           | None => Some items
           end
       | None => None
       end)
    handler_fields (Some []).

(** [key in data] *)
Definition in_body {V : Type} (data : gmap string V) (key : string) : bool :=
  bool_decide (is_Some (data !! key)).

(** Sample inputs. *)
Definition sample_body : gmap string Z :=
  <["id" := 99]> (<["is_recurring" := 5]> (<["amount" := 12]> ∅)).

Definition january_store : list (event Z) :=
  [sample_one_off (-50) (ymd 2025 1 2);
   sample_event "weekly" (Some 1) (Some (ymd 2024 12 4)) None].

(** A store in which three occurrences fall on 2025-01-08: a one-off, the
    second January occurrence of a weekly event, and another one-off. *)
Definition same_day_store : list (event Z) :=
  [sample_one_off 70 (ymd 2025 1 8);
   sample_event "weekly" (Some 1) (Some (ymd 2024 12 4)) None;
   sample_one_off (-20) (ymd 2025 1 8)].

(* ================================================================== *)
(** * Part II: properties                                               *)
(* ================================================================== *)

(** ** The order on dates *)

Lemma dt_ltb_spec (a b : datetime) :
  dt_ltb a b = true <->
  year a < year b \/
  (year a = year b /\
   (month a < month b \/ (month a = month b /\ day a < day b))).
Proof.
  unfold dt_ltb, dt_compare.
  destruct (Z.compare_spec (year a) (year b));
    destruct (Z.compare_spec (month a) (month b));
    destruct (Z.compare_spec (day a) (day b));
    split; intros; try discriminate; try reflexivity; lia.
Qed.

Lemma dt_leb_spec (a b : datetime) :
  dt_leb a b = true <->
  year a < year b \/
  (year a = year b /\
   (month a < month b \/ (month a = month b /\ day a <= day b))).
Proof.
  unfold dt_leb, dt_compare.
  destruct (Z.compare_spec (year a) (year b));
    destruct (Z.compare_spec (month a) (month b));
    destruct (Z.compare_spec (day a) (day b));
    split; intros; try discriminate; try reflexivity; lia.
Qed.

Lemma dt_leb_false (a b : datetime) : dt_leb a b = false <-> dt_ltb b a = true.
Proof.
  rewrite <- not_true_iff_false, dt_leb_spec, dt_ltb_spec. lia.
Qed.

Lemma dt_ltb_false (a b : datetime) : dt_ltb a b = false <-> dt_leb b a = true.
Proof.
  rewrite <- not_true_iff_false, dt_leb_spec, dt_ltb_spec. lia.
Qed.

Lemma dt_leb_refl (a : datetime) : dt_leb a a = true.
Proof. apply dt_leb_spec. lia. Qed.

Lemma dt_leb_trans (a b c : datetime) :
  dt_leb a b = true -> dt_leb b c = true -> dt_leb a c = true.
Proof. rewrite !dt_leb_spec. lia. Qed.

Lemma dt_ltb_leb (a b : datetime) : dt_ltb a b = true -> dt_leb a b = true.
Proof. rewrite dt_leb_spec, dt_ltb_spec. lia. Qed.

Lemma dt_leb_total (a b : datetime) : dt_leb a b = true \/ dt_leb b a = true.
Proof. rewrite !dt_leb_spec. lia. Qed.

Lemma dt_leb_antisym (a b : datetime) :
  dt_leb a b = true -> dt_leb b a = true -> a = b.
Proof.
  rewrite !dt_leb_spec. destruct a, b; simpl. intros.
  f_equal; lia.
Qed.

Lemma dt_min_leb_r (a b : datetime) : dt_leb (dt_min a b) b = true.
Proof.
  unfold dt_min. destruct (dt_ltb b a) eqn:E.
  - apply dt_leb_refl.
  - now apply dt_ltb_false.
Qed.

Lemma dt_min_leb_l (a b : datetime) : dt_leb (dt_min a b) a = true.
Proof.
  unfold dt_min. destruct (dt_ltb b a) eqn:E.
  - now apply dt_ltb_leb.
  - apply dt_leb_refl.
Qed.

(** ** Month lengths and ordinals *)

Lemma month_cases (m : Z) :
  1 <= m <= 12 ->
  m = 1 \/ m = 2 \/ m = 3 \/ m = 4 \/ m = 5 \/ m = 6 \/
  m = 7 \/ m = 8 \/ m = 9 \/ m = 10 \/ m = 11 \/ m = 12.
Proof. lia. Qed.

Ltac each_month m H :=
  let C := fresh "C" in
  pose proof (month_cases m H) as C;
  repeat (destruct C as [C | C]); subst m.

Lemma days_in_month_bounds (y m : Z) :
  1 <= m <= 12 -> 28 <= days_in_month y m <= 31.
Proof.
  intros Hm. each_month m Hm;
    unfold days_in_month, month_lengths; simpl;
    destruct (is_leap y); lia.
Qed.

Lemma days_before_month_succ (y m : Z) :
  1 <= m <= 12 ->
  days_before_month y (m + 1) = days_before_month y m + days_in_month y m.
Proof.
  intros Hm. each_month m Hm;
    unfold days_before_month, days_in_month, month_lengths; simpl;
    destruct (is_leap y); lia.
Qed.

Lemma days_before_month_1 (y : Z) : days_before_month y 1 = 0.
Proof. reflexivity. Qed.

Lemma days_before_month_13 (y : Z) : days_before_month y 13 = days_in_year y.
Proof.
  unfold days_before_month, days_in_year, month_lengths; simpl.
  destruct (is_leap y); lia.
Qed.

Lemma days_before_month_mono (y m m' : Z) :
  1 <= m -> m <= m' -> m' <= 13 ->
  days_before_month y m <= days_before_month y m'.
Proof.
  intros H1 H2 H3.
  assert (Hgen : forall k : nat, m + Z.of_nat k <= 13 ->
             days_before_month y m <= days_before_month y (m + Z.of_nat k)).
  { induction k as [|k IH]; intros Hk.
    - replace (m + Z.of_nat 0) with m by lia. lia.
    - replace (m + Z.of_nat (S k)) with (m + Z.of_nat k + 1) by lia.
      rewrite days_before_month_succ by lia.
      pose proof (days_in_month_bounds y (m + Z.of_nat k)). lia. }
  specialize (Hgen (Z.to_nat (m' - m))).
  replace (m + Z.of_nat (Z.to_nat (m' - m))) with m' in Hgen by lia.
  apply Hgen. lia.
Qed.

Lemma days_before_year_succ (y : Z) :
  days_before_year (y + 1) = days_before_year y + days_in_year y.
Proof.
  unfold days_before_year, days_in_year, is_leap.
  replace (y + 1 - 1) with y by lia.
  destruct (Z.eqb_spec (y mod 4) 0) as [E4|E4];
    destruct (Z.eqb_spec (y mod 100) 0) as [E100|E100];
    destruct (Z.eqb_spec (y mod 400) 0) as [E400|E400]; simpl;
    Z.div_mod_to_equations; lia.
Qed.

Lemma days_in_year_bounds (y : Z) : 365 <= days_in_year y <= 366.
Proof. unfold days_in_year. destruct (is_leap y); lia. Qed.

Lemma days_before_year_mono (y y' : Z) :
  y <= y' -> days_before_year y <= days_before_year y'.
Proof.
  intros Hle.
  assert (Hgen : forall k : nat,
             days_before_year y <= days_before_year (y + Z.of_nat k)).
  { induction k as [|k IH].
    - replace (y + Z.of_nat 0) with y by lia. lia.
    - replace (y + Z.of_nat (S k)) with (y + Z.of_nat k + 1) by lia.
      rewrite days_before_year_succ.
      pose proof (days_in_year_bounds (y + Z.of_nat k)). lia. }
  specialize (Hgen (Z.to_nat (y' - y))).
  now replace (y + Z.of_nat (Z.to_nat (y' - y))) with y' in Hgen by lia.
Qed.

Lemma valid_dateb_spec (d : datetime) : valid_dateb d = true <-> valid_date d.
Proof. unfold valid_dateb, valid_date. rewrite !andb_true_iff, !Z.leb_le. lia. Qed.

Lemma toordinal_in_year (d : datetime) :
  valid_date d ->
  days_before_year (year d) < toordinal d <= days_before_year (year d + 1).
Proof.
  intros [Hm Hd]. unfold toordinal.
  rewrite days_before_year_succ, <- days_before_month_13.
  pose proof (days_before_month_mono (year d) 1 (month d)).
  pose proof (days_before_month_mono (year d) (month d + 1) 13).
  pose proof (days_before_month_succ (year d) (month d) Hm).
  rewrite days_before_month_1 in *. lia.
Qed.

(** On valid dates the ordinal is strictly monotone for the order that
    [datetime] comparison implements. *)
Lemma toordinal_lt (a b : datetime) :
  valid_date a -> valid_date b -> dt_ltb a b = true -> toordinal a < toordinal b.
Proof.
  intros Ha Hb Hlt. apply dt_ltb_spec in Hlt.
  destruct Hlt as [Hy | [Hy [Hm | [Hm Hd]]]].
  - pose proof (toordinal_in_year a Ha). pose proof (toordinal_in_year b Hb).
    pose proof (days_before_year_mono (year a + 1) (year b)). lia.
  - destruct Ha as [Ha1 Ha2], Hb as [Hb1 Hb2]. unfold toordinal. rewrite Hy in *.
    pose proof (days_before_month_mono (year b) (month a + 1) (month b)).
    pose proof (days_before_month_succ (year b) (month a) Ha1). lia.
  - unfold toordinal. rewrite Hy, Hm. lia.
Qed.

Lemma toordinal_ltb (a b : datetime) :
  valid_date a -> valid_date b ->
  (dt_ltb a b = true <-> toordinal a < toordinal b).
Proof.
  intros Ha Hb. split; [now apply toordinal_lt|].
  intros Hlt. destruct (dt_ltb a b) eqn:E; [reflexivity|].
  apply dt_ltb_false in E.
  destruct (dt_ltb b a) eqn:E'.
  - apply toordinal_lt in E'; auto. lia.
  - apply dt_ltb_false in E'. rewrite (dt_leb_antisym a b E' E) in Hlt. lia.
Qed.

Lemma toordinal_leb (a b : datetime) :
  valid_date a -> valid_date b ->
  (dt_leb a b = true <-> toordinal a <= toordinal b).
Proof.
  intros Ha Hb. pose proof (toordinal_ltb b a Hb Ha) as Hlt.
  destruct (dt_leb a b) eqn:E.
  - split; [intros _|reflexivity].
    apply dt_ltb_false in E. rewrite E in Hlt.
    destruct (Z_lt_le_dec (toordinal b) (toordinal a)) as [Hc|]; [|assumption].
    apply Hlt in Hc. discriminate.
  - apply dt_leb_false in E. split; [discriminate|].
    apply Hlt in E. lia.
Qed.

Lemma toordinal_inj (a b : datetime) :
  valid_date a -> valid_date b -> toordinal a = toordinal b -> a = b.
Proof.
  intros Ha Hb Heq. apply dt_leb_antisym; apply toordinal_leb; auto; lia.
Qed.

(** ** Day arithmetic *)

Lemma next_day_valid (d : datetime) : valid_date d -> valid_date (next_day d).
Proof.
  intros [Hm Hd]. unfold next_day, valid_date.
  destruct (Z.ltb_spec (day d) (days_in_month (year d) (month d))); simpl.
  - lia.
  - destruct (Z.ltb_spec (month d) 12); simpl.
    + pose proof (days_in_month_bounds (year d) (month d + 1)). lia.
    + pose proof (days_in_month_bounds (year d + 1) 1). lia.
Qed.

Lemma next_day_toordinal (d : datetime) :
  valid_date d -> toordinal (next_day d) = toordinal d + 1.
Proof.
  intros [Hm Hd]. unfold next_day, toordinal.
  destruct (Z.ltb_spec (day d) (days_in_month (year d) (month d))); simpl.
  - lia.
  - destruct (Z.ltb_spec (month d) 12); simpl.
    + rewrite days_before_month_succ by lia. lia.
    + assert (Hm12 : month d = 12) by lia. rewrite Hm12 in *.
      rewrite days_before_year_succ, <- days_before_month_13.
      pose proof (days_before_month_succ (year d) 12 ltac:(lia)) as Hs.
      change (12 + 1) with 13 in Hs.
      rewrite days_before_month_1. lia.
Qed.

Lemma prev_day_valid (d : datetime) : valid_date d -> valid_date (prev_day d).
Proof.
  intros [Hm Hd]. unfold prev_day, valid_date.
  destruct (Z.ltb_spec 1 (day d)); simpl.
  - lia.
  - destruct (Z.ltb_spec 1 (month d)); simpl.
    + pose proof (days_in_month_bounds (year d) (month d - 1)). lia.
    + unfold days_in_month, month_lengths. simpl. lia.
Qed.

Lemma prev_day_toordinal (d : datetime) :
  valid_date d -> toordinal (prev_day d) = toordinal d - 1.
Proof.
  intros [Hm Hd]. unfold prev_day, toordinal.
  destruct (Z.ltb_spec 1 (day d)); simpl.
  - lia.
  - destruct (Z.ltb_spec 1 (month d)); simpl.
    + pose proof (days_before_month_succ (year d) (month d - 1)) as Hs.
      replace (month d - 1 + 1) with (month d) in Hs by lia. lia.
    + assert (Hm1 : month d = 1) by lia. rewrite Hm1 in *.
      pose proof (days_before_year_succ (year d - 1)) as Hs.
      replace (year d - 1 + 1) with (year d) in Hs by lia.
      rewrite <- days_before_month_13 in Hs.
      pose proof (days_before_month_succ (year d - 1) 12 ltac:(lia)) as Hs'.
      change (12 + 1) with 13 in Hs'.
      rewrite days_before_month_1.
      unfold days_in_month, month_lengths in Hs'. simpl in Hs'. lia.
Qed.

Lemma iter_next_day (n : nat) (d : datetime) :
  valid_date d ->
  valid_date (Nat.iter n next_day d) /\
  toordinal (Nat.iter n next_day d) = toordinal d + Z.of_nat n.
Proof.
  intros Hd. induction n as [|n [IHv IHo]]; simpl.
  - split; [assumption|lia].
  - split; [now apply next_day_valid|].
    rewrite next_day_toordinal by assumption. lia.
Qed.

Lemma iter_prev_day (n : nat) (d : datetime) :
  valid_date d ->
  valid_date (Nat.iter n prev_day d) /\
  toordinal (Nat.iter n prev_day d) = toordinal d - Z.of_nat n.
Proof.
  intros Hd. induction n as [|n [IHv IHo]]; simpl.
  - split; [assumption|lia].
  - split; [now apply prev_day_valid|].
    rewrite prev_day_toordinal by assumption. lia.
Qed.

(** [d + timedelta(days=n)] is the valid date whose ordinal is [n] more. *)
Lemma add_days_valid (n : Z) (d : datetime) :
  valid_date d -> valid_date (add_days n d).
Proof.
  intros Hd. unfold add_days. destruct (0 <=? n).
  - now apply iter_next_day.
  - now apply iter_prev_day.
Qed.

Lemma add_days_toordinal (n : Z) (d : datetime) :
  valid_date d -> toordinal (add_days n d) = toordinal d + n.
Proof.
  intros Hd. unfold add_days. destruct (Z.leb_spec 0 n).
  - destruct (iter_next_day (Z.to_nat n) d Hd) as [_ ->]. lia.
  - destruct (iter_prev_day (Z.to_nat (- n)) d Hd) as [_ ->]. lia.
Qed.

Lemma add_days_1 (d : datetime) : add_days 1 d = next_day d.
Proof. reflexivity. Qed.

Lemma add_days_succ (k : nat) (d : datetime) :
  add_days (Z.of_nat (S k)) d = add_days (Z.of_nat k) (next_day d).
Proof.
  unfold add_days.
  destruct (Z.leb_spec 0 (Z.of_nat (S k))); [|lia].
  destruct (Z.leb_spec 0 (Z.of_nat k)); [|lia].
  rewrite !Nat2Z.id. apply Nat.iter_succ_r.
Qed.

(** ** Calendar math: validity and progress *)

Lemma add_months_valid (k : Z) (d : datetime) :
  valid_date d -> valid_date (add_months k d).
Proof.
  intros [Hm Hd]. unfold add_months, valid_date; simpl.
  set (m0 := month d + k).
  assert (Hm' : 1 <= (m0 - 1) mod 12 + 1 <= 12)
    by (pose proof (Z.mod_pos_bound (m0 - 1) 12); lia).
  pose proof (days_in_month_bounds (year d + (m0 - 1) / 12) _ Hm'). lia.
Qed.

Lemma add_years_valid (k : Z) (d : datetime) :
  valid_date d -> valid_date (add_years k d).
Proof.
  intros [Hm Hd]. unfold add_years, valid_date; simpl.
  pose proof (days_in_month_bounds (year d + k) _ Hm). lia.
Qed.

Lemma add_months_ltb (k : Z) (d : datetime) :
  valid_date d -> 1 <= k -> dt_ltb d (add_months k d) = true.
Proof.
  intros [Hm Hd] Hk. apply dt_ltb_spec. unfold add_months; simpl.
  pose proof (Z.div_mod (month d + k - 1) 12).
  pose proof (Z.mod_pos_bound (month d + k - 1) 12). lia.
Qed.

Lemma add_years_ltb (k : Z) (d : datetime) :
  1 <= k -> dt_ltb d (add_years k d) = true.
Proof. intros Hk. apply dt_ltb_spec. unfold add_years; simpl. lia. Qed.

Lemma add_days_ltb (n : Z) (d : datetime) :
  valid_date d -> 1 <= n -> dt_ltb d (add_days n d) = true.
Proof.
  intros Hd Hn. apply toordinal_ltb; auto using add_days_valid.
  rewrite add_days_toordinal by assumption. lia.
Qed.

Lemma advance_valid (pattern : string) (interval : Z) (c c' : datetime) :
  valid_date c -> advance pattern interval c = Some c' -> valid_date c'.
Proof.
  intros Hc. unfold advance.
  repeat (destruct (String.eqb pattern _));
    intros [= <-]; auto using add_days_valid, add_months_valid, add_years_valid.
Qed.

(** Every advancement step moves the cursor strictly forward when the
    interval is at least 1. *)
Lemma advance_ltb (pattern : string) (interval : Z) (c c' : datetime) :
  valid_date c -> 1 <= interval ->
  advance pattern interval c = Some c' -> dt_ltb c c' = true.
Proof.
  intros Hc Hi. unfold advance.
  repeat (destruct (String.eqb pattern _));
    intros [= <-];
    auto using add_months_ltb, add_years_ltb;
    try (apply add_days_ltb; [assumption|lia]);
    try (apply add_months_ltb; [assumption|lia]).
Qed.

Lemma advance_known (pattern : string) (interval : Z) (c : datetime) :
  known_pattern pattern = true <-> is_Some (advance pattern interval c).
Proof.
  unfold known_pattern, advance.
  repeat (destruct (String.eqb pattern _)); simpl;
    split; intros Hx; eauto; try reflexivity; try discriminate.
  destruct Hx; discriminate.
Qed.

Lemma advance_unknown (pattern : string) (interval : Z) (c : datetime) :
  known_pattern pattern = false -> advance pattern interval c = None.
Proof.
  intros Hk. destruct (advance pattern interval c) eqn:E; [|reflexivity].
  assert (is_Some (advance pattern interval c)) as Hs by (rewrite E; eauto).
  apply advance_known in Hs. congruence.
Qed.

(** ** Outcomes *)

Lemma bind_Ok_inv {A B : Type} (c : outcome A) (f : A -> outcome B) (b : B) :
  c ≫= f = Ok b -> exists a, c = Ok a /\ f a = Ok b.
Proof. destruct c; simpl; intros Hc; try discriminate. eauto. Qed.

Lemma bind_Ok {A B : Type} (a : A) (f : A -> outcome B) : Ok a ≫= f = f a.
Proof. reflexivity. Qed.

(** ** The order on strings *)

Lemma ascii_compare_refl (c : ascii) : Ascii.compare c c = Eq.
Proof. unfold Ascii.compare. apply N.compare_refl. Qed.

Lemma ascii_compare_lt_trans (a b c : ascii) :
  Ascii.compare a b = Lt -> Ascii.compare b c = Lt -> Ascii.compare a c = Lt.
Proof. unfold Ascii.compare. rewrite !N.compare_lt_iff. lia. Qed.

Lemma str_compare_refl (s : string) : String.compare s s = Eq.
Proof.
  induction s as [|c s IH]; simpl; [reflexivity|].
  now rewrite ascii_compare_refl.
Qed.

Lemma str_compare_lt_trans (a b c : string) :
  String.compare a b = Lt -> String.compare b c = Lt -> String.compare a c = Lt.
Proof.
  revert b c. induction a as [|x a IH]; intros [|y b] [|z c]; simpl;
    try discriminate; try reflexivity.
  destruct (Ascii.compare x y) eqn:Hxy; try discriminate;
    destruct (Ascii.compare y z) eqn:Hyz; try discriminate; intros H1 H2.
  - apply Ascii.compare_eq_iff in Hxy, Hyz. subst.
    rewrite ascii_compare_refl. eauto.
  - apply Ascii.compare_eq_iff in Hxy. subst. now rewrite Hyz.
  - apply Ascii.compare_eq_iff in Hyz. subst. now rewrite Hxy.
  - now rewrite (ascii_compare_lt_trans _ _ _ Hxy Hyz).
Qed.

Lemma str_leb_refl (s : string) : String.leb s s = true.
Proof. unfold String.leb. now rewrite str_compare_refl. Qed.

Lemma str_leb_trans (a b c : string) :
  String.leb a b = true -> String.leb b c = true -> String.leb a c = true.
Proof.
  unfold String.leb.
  destruct (String.compare a b) eqn:Hab; try discriminate;
    destruct (String.compare b c) eqn:Hbc; try discriminate; intros _ _.
  - apply String.compare_eq_iff in Hab, Hbc. subst. now rewrite str_compare_refl.
  - apply String.compare_eq_iff in Hab. subst. now rewrite Hbc.
  - apply String.compare_eq_iff in Hbc. subst. now rewrite Hab.
  - now rewrite (str_compare_lt_trans _ _ _ Hab Hbc).
Qed.

Lemma str_leb_false (a b : string) :
  String.leb a b = false -> String.leb b a = true.
Proof.
  intros Hab. destruct (String.leb_total a b) as [Hle|Hle];
    [rewrite Hle in Hab; discriminate|exact Hle].
Qed.


Section EngineProperties.

Context {Amount : Type} `{Numeric Amount} `{DateFormat}.

Implicit Types (ev : event Amount) (evs : list (event Amount)).
Implicit Types (o : occurrence Amount) (occs : list (occurrence Amount)).

(** ** The expander: what the loops preserve *)

Lemma fast_forward_preserves (Q : datetime -> Prop) pattern interval
    start_date rec_end :
  (forall c c', Q c -> advance pattern interval c = Some c' -> Q c') ->
  forall fuel current c',
    Q current ->
    fast_forward fuel pattern interval start_date rec_end current = Ok c' ->
    Q c'.
Proof.
  intros Hstep. induction fuel as [|fuel IH]; simpl; intros current c' HQ Hrun.
  - discriminate.
  - destruct (dt_ltb current start_date && dt_leb current rec_end).
    + destruct (advance pattern interval current) as [next|] eqn:Hadv.
      * eapply IH; [|eassumption]. eauto.
      * now injection Hrun as <-.
    + now injection Hrun as <-.
Qed.

Lemma emit_preserves (P : occurrence Amount -> Prop) (Q : datetime -> Prop)
    ev pattern interval start_date rec_end end_date :
  (forall c c', Q c -> advance pattern interval c = Some c' -> Q c') ->
  (forall c, Q c -> dt_leb c (dt_min rec_end end_date) = true ->
             dt_geb c start_date = true -> P (recurring_occurrence ev c)) ->
  forall fuel current occs occs',
    Q current -> Forall P occs ->
    emit fuel ev pattern interval start_date rec_end end_date current occs
      = Ok occs' ->
    Forall P occs'.
Proof.
  intros Hstep Hemit.
  induction fuel as [|fuel IH]; simpl; intros current occs occs' HQ HP Hrun.
  - discriminate.
  - destruct (dt_leb current (dt_min rec_end end_date)) eqn:Hle.
    + assert (HP' : Forall P (if dt_geb current start_date
                              then occs ++ [recurring_occurrence ev current]
                              else occs)).
      { destruct (dt_geb current start_date) eqn:Hge; [|assumption].
        apply Forall_app. split; [assumption|].
        apply Forall_singleton. now apply Hemit. }
      destruct (advance pattern interval current) as [next|] eqn:Hadv.
      * eapply IH; [| |eassumption]; eauto.
      * now injection Hrun as <-.
    + now injection Hrun as <-.
Qed.

Lemma expand_preserves (P : occurrence Amount -> Prop) (Q : datetime -> Prop)
    ev start_date end_date :
  (forall c c', Q c ->
     advance (recurrence_pattern ev) (effective_interval ev) c = Some c' -> Q c') ->
  (forall rec_start, recurrence_start ev = Some rec_start -> Q rec_start) ->
  (forall c, Q c ->
     dt_leb c (dt_min (default end_date (recurrence_end ev)) end_date) = true ->
     dt_geb c start_date = true -> P (recurring_occurrence ev c)) ->
  forall fuel occs,
    expand_recurring_event fuel ev start_date end_date = Ok occs ->
    Forall P occs.
Proof.
  intros Hstep Hstart Hemit fuel occs. unfold expand_recurring_event.
  destruct (recurrence_start ev) as [rec_start|]; [|discriminate].
  intros Hrun. apply bind_Ok_inv in Hrun as (current & Hff & Hem).
  eapply emit_preserves; [exact Hstep|exact Hemit| | |exact Hem].
  - eapply fast_forward_preserves; [exact Hstep| |exact Hff]. now apply Hstart.
  - constructor.
Qed.

(** Occurrence dates of an expansion are valid dates, lie in the query
    window and do not exceed the recurrence end. *)
Lemma expand_dates ev start_date end_date fuel occs :
  expand_recurring_event fuel ev start_date end_date = Ok occs ->
  Forall (fun o =>
            dt_leb start_date (occ_date o) = true /\
            dt_leb (occ_date o) end_date = true /\
            dt_leb (occ_date o) (default end_date (recurrence_end ev)) = true)
         occs.
Proof.
  apply (expand_preserves _ (fun _ => True)); auto.
  intros c _ Hle Hge. simpl. repeat split.
  - exact Hge.
  - eapply dt_leb_trans; [exact Hle|apply dt_min_leb_r].
  - eapply dt_leb_trans; [exact Hle|apply dt_min_leb_l].
Qed.

Lemma expand_dates_valid ev start_date end_date fuel occs :
  (forall rec_start, recurrence_start ev = Some rec_start -> valid_date rec_start) ->
  expand_recurring_event fuel ev start_date end_date = Ok occs ->
  Forall (fun o => valid_date (occ_date o)) occs.
Proof.
  intros Hv. apply (expand_preserves _ valid_date); auto.
  intros c c'. apply advance_valid.
Qed.

(** ** The expander: termination *)

Lemma fast_forward_terminates pattern interval start_date rec_end :
  1 <= interval -> valid_date start_date ->
  forall fuel current,
    valid_date current ->
    (0 < fuel)%nat ->
    toordinal start_date - toordinal current < Z.of_nat fuel ->
    exists c', fast_forward fuel pattern interval start_date rec_end current = Ok c'
               /\ valid_date c' /\ toordinal current <= toordinal c'.
Proof.
  intros Hi Hs. induction fuel as [|fuel IH]; intros current Hc Hpos Hfuel.
  - lia.
  - simpl. destruct (dt_ltb current start_date && dt_leb current rec_end) eqn:Hcond.
    + apply andb_true_iff in Hcond as [Hlt _].
      apply toordinal_ltb in Hlt; [|assumption..].
      destruct (advance pattern interval current) as [next|] eqn:Hadv.
      * pose proof (advance_valid _ _ _ _ Hc Hadv) as Hn.
        pose proof (advance_ltb _ _ _ _ Hc Hi Hadv) as Hlt'.
        apply toordinal_ltb in Hlt'; [|assumption..].
        destruct (IH next Hn) as (c' & Hrun & Hv & Hle); [lia..|].
        exists c'. split; [assumption|]. split; [assumption|lia].
      * exists current. split; [reflexivity|]. split; [assumption|lia].
    + exists current. split; [reflexivity|]. split; [assumption|lia].
Qed.

Lemma emit_terminates ev pattern interval start_date rec_end end_date :
  1 <= interval -> valid_date end_date ->
  forall fuel current occs,
    valid_date current ->
    (0 < fuel)%nat ->
    toordinal end_date - toordinal current + 1 < Z.of_nat fuel ->
    exists occs',
      emit fuel ev pattern interval start_date rec_end end_date current occs
        = Ok occs'.
Proof.
  intros Hi He. induction fuel as [|fuel IH]; intros current occs Hc Hpos Hfuel.
  - lia.
  - simpl. destruct (dt_leb current (dt_min rec_end end_date)) eqn:Hcond.
    + assert (Hle : dt_leb current end_date = true)
        by (eapply dt_leb_trans; [exact Hcond|apply dt_min_leb_r]).
      apply toordinal_leb in Hle; [|assumption..].
      destruct (advance pattern interval current) as [next|] eqn:Hadv.
      * pose proof (advance_valid _ _ _ _ Hc Hadv) as Hn.
        pose proof (advance_ltb _ _ _ _ Hc Hi Hadv) as Hlt'.
        apply toordinal_ltb in Hlt'; [|assumption..].
        apply IH; [assumption|lia..].
      * eauto.
    + eauto.
Qed.

Lemma expand_terminates ev rec_start start_date end_date fuel :
  recurrence_start ev = Some rec_start ->
  valid_date rec_start -> valid_date start_date -> valid_date end_date ->
  1 <= effective_interval ev ->
  (expansion_fuel rec_start start_date end_date <= fuel)%nat ->
  exists occs, expand_recurring_event fuel ev start_date end_date = Ok occs.
Proof.
  intros Hrs Hv Hs He Hi Hfuel. unfold expand_recurring_event, expansion_fuel in *.
  rewrite Hrs.
  destruct (fast_forward_terminates (recurrence_pattern ev) (effective_interval ev)
              start_date (default end_date (recurrence_end ev)) Hi Hs
              fuel rec_start Hv) as (c' & Hff & Hc' & Hle); [lia..|].
  rewrite Hff, bind_Ok.
  apply emit_terminates; [assumption..|lia|lia].
Qed.

(** ** Collecting and sorting the occurrences *)

Lemma collect_preserves (P : occurrence Amount -> Prop) fuel start_dt end_dt
    label_filter :
  forall evs all_occurrences result,
    (forall ev occs, In ev evs -> is_recurring ev = true ->
       expand_recurring_event fuel ev start_dt end_dt = Ok occs -> Forall P occs) ->
    (forall ev d, In ev evs -> is_recurring ev = false ->
       event_date ev = Some d ->
       dt_leb start_dt d = true -> dt_leb d end_dt = true ->
       P (one_off_occurrence ev d)) ->
    Forall P all_occurrences ->
    collect fuel evs start_dt end_dt label_filter all_occurrences = Ok result ->
    Forall P result.
Proof.
  induction evs as [|ev rest IH]; simpl; intros acc result Hrec Hone Hacc Hrun.
  - now injection Hrun as <-.
  - assert (IH' : forall acc', Forall P acc' ->
               collect fuel rest start_dt end_dt label_filter acc' = Ok result ->
               Forall P result).
    { intros acc' Hacc'. apply IH; eauto. }
    destruct (passes_label_filter label_filter ev); simpl in Hrun; [|eauto].
    destruct (is_recurring ev) eqn:Hr.
    + apply bind_Ok_inv in Hrun as (occs & Hexp & Hrest).
      apply (IH' (acc ++ occs)); [|assumption].
      apply Forall_app. split; eauto.
    + destruct (event_date ev) as [d|] eqn:Hd; [|eauto].
      destruct (dt_leb start_dt d && dt_leb d end_dt) eqn:Hin; [|eauto].
      apply andb_true_iff in Hin as [Hin1 Hin2].
      apply (IH' (acc ++ [one_off_occurrence ev d])); [|assumption].
      apply Forall_app. split; [assumption|].
      apply Forall_singleton. eauto.
Qed.

(** Skipping the events the label filter rejects is the same as running
    without a filter on the events that pass it. *)
Lemma collect_filter fuel start_dt end_dt label_filter :
  forall evs all_occurrences,
    collect fuel evs start_dt end_dt label_filter all_occurrences =
    collect fuel (List.filter (passes_label_filter label_filter) evs)
            start_dt end_dt None all_occurrences.
Proof.
  induction evs as [|ev rest IH]; intros acc; [reflexivity|].
  simpl. destruct (passes_label_filter label_filter ev) eqn:Hp; simpl.
  - destruct (is_recurring ev).
    + destruct (expand_recurring_event fuel ev start_dt end_dt); simpl; auto.
    + destruct (event_date ev) as [d|]; auto.
      destruct (dt_leb start_dt d && dt_leb d end_dt); auto.
  - apply IH.
Qed.

Lemma collect_terminates fuel start_dt end_dt label_filter :
  valid_date start_dt -> valid_date end_dt ->
  forall evs all_occurrences,
    Forall expandable evs ->
    (collect_fuel evs start_dt end_dt <= fuel)%nat ->
    exists result,
      collect fuel evs start_dt end_dt label_filter all_occurrences = Ok result.
Proof.
  intros Hs He. induction evs as [|ev rest IH]; simpl; intros acc Hwf Hfuel.
  - eauto.
  - apply Forall_cons in Hwf as [Hev Hrest].
    assert (Hfuel' : (collect_fuel rest start_dt end_dt <= fuel)%nat) by lia.
    destruct (passes_label_filter label_filter ev); simpl; [|eauto].
    destruct (is_recurring ev) eqn:Hr.
    + destruct (Hev Hr) as (rec_start & Hrs & Hv & Hi).
      destruct (expand_terminates ev rec_start start_dt end_dt fuel)
        as (occs & ->); try assumption.
      { unfold event_fuel in Hfuel. rewrite Hrs in Hfuel. lia. }
      rewrite bind_Ok. eauto.
    + destruct (event_date ev) as [d|]; [|eauto].
      destruct (dt_leb start_dt d && dt_leb d end_dt); eauto.
Qed.

Lemma collect_extends fuel start_dt end_dt label_filter :
  forall evs all_occurrences result,
    collect fuel evs start_dt end_dt label_filter all_occurrences = Ok result ->
    exists new, result = all_occurrences ++ new.
Proof.
  induction evs as [|ev rest IH]; simpl; intros acc result Hrun.
  - injection Hrun as <-. exists []. now rewrite app_nil_r.
  - destruct (passes_label_filter label_filter ev); simpl in Hrun; [|eauto].
    destruct (is_recurring ev).
    + apply bind_Ok_inv in Hrun as (own & _ & Hrest).
      apply IH in Hrest as [new ->]. rewrite <- app_assoc. eauto.
    + destruct (event_date ev) as [d|]; [|eauto].
      destruct (dt_leb start_dt d && dt_leb d end_dt); [|eauto].
      apply IH in Hrun as [new ->]. rewrite <- app_assoc. eauto.
Qed.

Lemma collect_app fuel start_dt end_dt label_filter :
  forall evs1 evs2 all_occurrences,
    collect fuel (evs1 ++ evs2) start_dt end_dt label_filter all_occurrences =
    collect fuel evs1 start_dt end_dt label_filter all_occurrences ≫=
      collect fuel evs2 start_dt end_dt label_filter.
Proof.
  induction evs1 as [|ev rest IH]; intros evs2 acc; simpl; [reflexivity|].
  destruct (passes_label_filter label_filter ev); simpl; [|apply IH].
  destruct (is_recurring ev).
  - destruct (expand_recurring_event fuel ev start_dt end_dt); simpl;
      [apply IH|reflexivity..].
  - destruct (event_date ev) as [d|]; [|apply IH].
    destruct (dt_leb start_dt d && dt_leb d end_dt); apply IH.
Qed.

Lemma collect_member fuel start_dt end_dt label_filter ev :
  passes_label_filter label_filter ev = true ->
  forall evs all_occurrences result,
    In ev evs ->
    collect fuel evs start_dt end_dt label_filter all_occurrences = Ok result ->
    (is_recurring ev = false ->
     forall d, event_date ev = Some d ->
               dt_leb start_dt d = true -> dt_leb d end_dt = true ->
               In (one_off_occurrence ev d) result) /\
    (is_recurring ev = true ->
     exists own, expand_recurring_event fuel ev start_dt end_dt = Ok own /\
                 incl own result).
Proof.
  intros Hpass. induction evs as [|ev' rest IH]; intros acc result Hin Hrun;
    [contradiction|].
  destruct Hin as [->|Hin].
  - clear IH. simpl in Hrun. rewrite Hpass in Hrun. simpl in Hrun. split.
    + intros Hr d Hd H1 H2. rewrite Hr, Hd, H1, H2 in Hrun. simpl in Hrun.
      apply collect_extends in Hrun as [new ->].
      apply in_or_app. left. apply in_or_app. right. now left.
    + intros Hr. rewrite Hr in Hrun.
      apply bind_Ok_inv in Hrun as (own & Hown & Hrest).
      exists own. split; [exact Hown|].
      apply collect_extends in Hrest as [new ->].
      intros x Hx. apply in_or_app. left. apply in_or_app. now right.
  - simpl in Hrun.
    destruct (passes_label_filter label_filter ev'); simpl in Hrun; [|eauto].
    destruct (is_recurring ev').
    + apply bind_Ok_inv in Hrun as (own & _ & Hrest). eauto.
    + destruct (event_date ev') as [d'|]; [|eauto].
      destruct (dt_leb start_dt d' && dt_leb d' end_dt); eauto.
Qed.

Lemma insert_by_date_perm o occs :
  Permutation (insert_by_date o occs) (o :: occs).
Proof.
  induction occs as [|o' l IH]; simpl; [reflexivity|].
  destruct (String.leb (occ_date_str o) (occ_date_str o')); [reflexivity|].
  rewrite IH. apply perm_swap.
Qed.

Lemma sort_by_date_perm occs : Permutation (sort_by_date occs) occs.
Proof.
  induction occs as [|o l IH]; simpl; [reflexivity|].
  rewrite insert_by_date_perm. now constructor.
Qed.

Lemma insert_by_date_sorted o occs :
  StronglySorted date_str_le occs ->
  StronglySorted date_str_le (insert_by_date o occs).
Proof.
  induction 1 as [|o' l Hl IH Hall]; simpl.
  - repeat constructor.
  - destruct (String.leb (occ_date_str o) (occ_date_str o')) eqn:Hle.
    + constructor; [now constructor|].
      constructor; [exact Hle|].
      eapply Forall_impl; [exact Hall|].
      intros x Hx. unfold date_str_le in *. eauto using str_leb_trans.
    + constructor; [exact IH|].
      rewrite insert_by_date_perm. constructor; [|exact Hall].
      now apply str_leb_false.
Qed.

Lemma sort_by_date_sorted occs : StronglySorted date_str_le (sort_by_date occs).
Proof.
  induction occs as [|o l IH]; simpl; [constructor|].
  now apply insert_by_date_sorted.
Qed.

Lemma get_events_in_range_inv fuel evs start_dt end_dt label_filter occs :
  get_events_in_range fuel evs start_dt end_dt label_filter = Ok occs ->
  exists all_occurrences,
    collect fuel evs start_dt end_dt label_filter [] = Ok all_occurrences /\
    occs = sort_by_date all_occurrences.
Proof.
  unfold get_events_in_range. intros Hrun.
  apply bind_Ok_inv in Hrun as (all_occurrences & Hc & Hs).
  exists all_occurrences. split; [assumption|]. now injection Hs.
Qed.

Lemma get_events_in_range_preserves (P : occurrence Amount -> Prop) fuel evs
    start_dt end_dt label_filter occs :
  (forall ev rs, In ev evs -> recurrence_start ev = Some rs ->
     forall c, dt_leb start_dt c = true -> dt_leb c end_dt = true ->
               (forall Q : datetime -> Prop,
                   (forall c1 c2, Q c1 ->
                      advance (recurrence_pattern ev) (effective_interval ev) c1
                        = Some c2 -> Q c2) -> Q rs -> Q c) ->
               P (recurring_occurrence ev c)) ->
  (forall ev d, In ev evs -> event_date ev = Some d ->
     dt_leb start_dt d = true -> dt_leb d end_dt = true ->
     P (one_off_occurrence ev d)) ->
  get_events_in_range fuel evs start_dt end_dt label_filter = Ok occs ->
  Forall P occs.
Proof.
  intros Hrec Hone Hrun.
  apply get_events_in_range_inv in Hrun as (all_occurrences & Hc & ->).
  rewrite sort_by_date_perm.
  eapply collect_preserves; [| |constructor|exact Hc].
  - intros ev occs Hin _ Hexp.
    destruct (recurrence_start ev) as [rs|] eqn:Hrs;
      [|unfold expand_recurring_event in Hexp; rewrite Hrs in Hexp; discriminate].
    pose (R := fun c : datetime =>
                 forall Q : datetime -> Prop,
                   (forall c1 c2, Q c1 ->
                      advance (recurrence_pattern ev) (effective_interval ev) c1
                        = Some c2 -> Q c2) -> Q rs -> Q c).
    apply (expand_preserves P R ev start_dt end_dt) with (fuel := fuel);
      [| | |exact Hexp].
    + intros c1 c2 HR Hadv Q Hstep Hq. eapply Hstep; [|exact Hadv]. now apply HR.
    + intros rs' Hrs' Q _ Hq. congruence.
    + intros c HR Hle Hge. eapply Hrec; eauto.
      eapply dt_leb_trans; [exact Hle|apply dt_min_leb_r].
  - intros ev d Hin _ Hd H1 H2. eauto.
Qed.

Lemma get_events_in_range_window fuel evs start_dt end_dt label_filter occs :
  get_events_in_range fuel evs start_dt end_dt label_filter = Ok occs ->
  Forall (in_window start_dt end_dt) occs.
Proof.
  apply get_events_in_range_preserves.
  - intros ev rs _ _ c H1 H2 _. split; assumption.
  - intros ev d _ _ H1 H2. split; assumption.
Qed.



Lemma get_events_in_range_terminates fuel evs start_dt end_dt label_filter :
  valid_date start_dt -> valid_date end_dt ->
  Forall expandable evs ->
  (collect_fuel evs start_dt end_dt <= fuel)%nat ->
  exists occs, get_events_in_range fuel evs start_dt end_dt label_filter = Ok occs.
Proof.
  intros Hs He Hwf Hfuel. unfold get_events_in_range.
  destruct (collect_terminates fuel start_dt end_dt label_filter Hs He evs []
              Hwf Hfuel) as (result & ->).
  rewrite bind_Ok. eauto.
Qed.

(** Every returned occurrence comes from an event that the label filter
    keeps. *)
Lemma get_events_in_range_provenance fuel evs start_dt end_dt label_filter occs :
  get_events_in_range fuel evs start_dt end_dt label_filter = Ok occs ->
  Forall (fun o =>
            exists ev, In ev evs /\
                       passes_label_filter label_filter ev = true /\
                       occurrence_of ev o) occs.
Proof.
  intros Hrun. apply get_events_in_range_inv in Hrun as (all & Hc & ->).
  rewrite sort_by_date_perm. rewrite collect_filter in Hc.
  eapply collect_preserves; [| |constructor|exact Hc].
  - intros ev own Hin Hr Hexp. apply filter_In in Hin as [Hin Hpass].
    apply (expand_preserves _ (fun _ => True) ev start_dt end_dt)
      with (fuel := fuel); auto.
    intros c _ _ _. exists ev. repeat split; try assumption.
    simpl. now rewrite Hr.
  - intros ev d Hin Hr _ _ _. apply filter_In in Hin as [Hin Hpass].
    exists ev. repeat split; try assumption. simpl. now rewrite Hr.
Qed.

(** ** Grouping by date *)

Lemma apply_events_app occs1 occs2 (b : Amount) :
  apply_events (occs1 ++ occs2) b = apply_events occs2 (apply_events occs1 b).
Proof. unfold apply_events. apply fold_left_app. Qed.

Lemma apply_events_amounts occs (b : Amount) :
  apply_events occs b = fold_left amount_add (map occ_amount occs) b.
Proof.
  unfold apply_events. revert b.
  induction occs as [|o l IH]; intros b; simpl; [reflexivity|apply IH].
Qed.


Lemma group_by_date_fold occs (key : string) :
  forall (m : gmap string (list (occurrence Amount))) l0,
    m !! key = lookup_of_list l0 ->
    fold_left
      (fun events_by_date o =>
         <[occ_date_str o :=
             default [] (events_by_date !! occ_date_str o) ++ [o]]>
           events_by_date) occs m !! key
    = lookup_of_list (l0 ++ filter (fun o => occ_date_str o = key) occs).
Proof.
  induction occs as [|o l IH]; intros m l0 Hm; simpl.
  - now rewrite app_nil_r.
  - destruct (decide (occ_date_str o = key)) as [Heq|Hne].
    + rewrite filter_cons_True by assumption.
      replace (l0 ++ o :: filter (fun o => occ_date_str o = key) l)
        with ((l0 ++ [o]) ++ filter (fun o => occ_date_str o = key) l)
        by (now rewrite <- app_assoc).
      apply IH. rewrite Heq, lookup_insert_eq, Hm.
      destruct l0; reflexivity.
    + rewrite filter_cons_False by assumption.
      apply IH. now rewrite lookup_insert_ne.
Qed.

Lemma group_by_date_lookup occs (key : string) :
  group_by_date occs !! key =
  lookup_of_list (filter (fun o => occ_date_str o = key) occs).
Proof.
  unfold group_by_date.
  now rewrite (group_by_date_fold occs key ∅ []) by apply lookup_empty.
Qed.

(** What one day of the walk adds to the running balance. *)
Lemma todays_events occs (d : datetime) (b : Amount) :
  match group_by_date occs !! strftime d with
  | Some todays => apply_events todays b
  | None => b
  end = apply_events (applied_on occs d) b.
Proof.
  rewrite group_by_date_lookup. unfold applied_on.
  destruct (filter (fun o => occ_date_str o = strftime d) occs); reflexivity.
Qed.

(** ** Sorted occurrence lists, day by day *)

Lemma filter_none (P : occurrence Amount -> Prop) `{forall o, Decision (P o)} occs :
  Forall (fun o => ~ P o) occs -> filter P occs = [].
Proof.
  induction 1 as [|o l Ho _ IH]; [reflexivity|].
  now rewrite filter_cons_False.
Qed.


(** ** The days of a window *)

Lemma days_from_cons (start : datetime) (n : nat) :
  days_from start (S n) = start :: days_from (next_day start) n.
Proof.
  unfold days_from. cbn [seq map]. f_equal.
  rewrite <- seq_shift, map_map. apply map_ext. intros k. apply add_days_succ.
Qed.

Lemma days_from_snoc (start : datetime) (n : nat) :
  days_from start (S n) = days_from start n ++ [add_days (Z.of_nat n) start].
Proof. unfold days_from. now rewrite seq_S, map_app. Qed.

Lemma add_days_to (start d : datetime) :
  valid_date start -> valid_date d ->
  add_days (toordinal d - toordinal start) start = d.
Proof.
  intros Hs Hd. apply toordinal_inj; [now apply add_days_valid|exact Hd|].
  rewrite add_days_toordinal by assumption. lia.
Qed.

Lemma window_days_cons (current end_dt : datetime) :
  valid_date current -> valid_date end_dt ->
  dt_leb current end_dt = true ->
  window_days current end_dt = current :: window_days (next_day current) end_dt.
Proof.
  intros Hc He Hle. apply toordinal_leb in Hle; [|assumption..].
  unfold window_days. rewrite next_day_toordinal by assumption.
  replace (Z.to_nat (toordinal end_dt - toordinal current + 1))
    with (S (Z.to_nat (toordinal end_dt - (toordinal current + 1) + 1))) by lia.
  apply days_from_cons.
Qed.

Lemma window_days_nil (current end_dt : datetime) :
  valid_date current -> valid_date end_dt ->
  dt_leb current end_dt = false -> window_days current end_dt = [].
Proof.
  intros Hc He Hle. apply dt_leb_false, toordinal_ltb in Hle; [|assumption..].
  unfold window_days.
  now replace (Z.to_nat (toordinal end_dt - toordinal current + 1)) with O by lia.
Qed.

Lemma window_days_snoc (start d : datetime) :
  valid_date start -> valid_date d -> toordinal start <= toordinal d ->
  window_days start d =
  days_from start (Z.to_nat (toordinal d - toordinal start)) ++ [d].
Proof.
  intros Hs Hd Hle. unfold window_days.
  replace (Z.to_nat (toordinal d - toordinal start + 1))
    with (S (Z.to_nat (toordinal d - toordinal start))) by lia.
  rewrite days_from_snoc, Z2Nat.id by lia. now rewrite add_days_to.
Qed.


(** ** The day-by-day walk *)

(** The running balance at the end of the walk: the occurrences applied
    on each remaining day, day after day. *)
Lemma walk_applied occs (end_dt : datetime) :
  valid_date end_dt ->
  forall fuel current (b : Amount) tl tl' b',
    valid_date current ->
    walk fuel (group_by_date occs) end_dt current b tl = Ok (tl', b') ->
    b' = apply_events
           (flat_map (applied_on occs) (window_days current end_dt)) b.
Proof.
  intros He.
  induction fuel as [|fuel IH]; simpl; intros current b tl tl' b' Hc Hrun.
  - discriminate.
  - destruct (dt_leb current end_dt) eqn:Hle.
    + rewrite add_days_1 in Hrun.
      apply IH in Hrun; [|now apply next_day_valid].
      rewrite todays_events in Hrun.
      rewrite window_days_cons by assumption.
      cbn [flat_map]. now rewrite apply_events_app.
    + injection Hrun as _ <-. now rewrite window_days_nil.
Qed.

(** ** Occurrence lists sorted by their date strings *)






Lemma walk_dates (events_by_date : gmap string (list (occurrence Amount)))
    (end_dt : datetime) :
  valid_date end_dt ->
  forall fuel current (b : Amount) tl tl' b',
    valid_date current ->
    walk fuel events_by_date end_dt current b tl = Ok (tl', b') ->
    map tp_date tl' =
    map tp_date tl ++
    map (fun k => add_days (Z.of_nat k) current)
        (seq 0 (Z.to_nat (toordinal end_dt - toordinal current + 1))).
Proof.
  intros He.
  induction fuel as [|fuel IH]; simpl; intros current b tl tl' b' Hc Hrun.
  - discriminate.
  - destruct (dt_leb current end_dt) eqn:Hle.
    + rewrite add_days_1 in Hrun.
      apply IH in Hrun; [|now apply next_day_valid].
      rewrite Hrun, map_app, <- app_assoc. f_equal.
      apply toordinal_leb in Hle; [|assumption..].
      rewrite next_day_toordinal by assumption.
      replace (Z.to_nat (toordinal end_dt - toordinal current + 1))
        with (S (Z.to_nat (toordinal end_dt - (toordinal current + 1) + 1)))
        by lia.
      cbn [map app seq tp_date]. f_equal.
      rewrite <- seq_shift, map_map.
      apply map_ext. intros k. symmetry. apply add_days_succ.
    + injection Hrun as <- _.
      apply dt_leb_false, toordinal_ltb in Hle; [|assumption..].
      replace (Z.to_nat (toordinal end_dt - toordinal current + 1)) with O by lia.
      simpl. now rewrite app_nil_r.
Qed.


Lemma walk_terminates (events_by_date : gmap string (list (occurrence Amount)))
    (end_dt : datetime) :
  valid_date end_dt ->
  forall fuel current (b : Amount) tl,
    valid_date current ->
    toordinal end_dt - toordinal current + 1 < Z.of_nat fuel ->
    (0 < fuel)%nat ->
    exists result, walk fuel events_by_date end_dt current b tl = Ok result.
Proof.
  intros He. induction fuel as [|fuel IH]; intros current b tl Hc Hfuel Hpos.
  - lia.
  - simpl. destruct (dt_leb current end_dt) eqn:Hle; [|eauto].
    apply toordinal_leb in Hle; [|assumption..].
    apply IH.
    + now apply add_days_valid.
    + rewrite add_days_toordinal by assumption. lia.
    + lia.
Qed.

(** ** The timeline computation as a whole *)

Lemma calculate_balance_timeline_inv fuel evs start_dt end_dt (starting : Amount)
    label_filter r :
  calculate_balance_timeline fuel evs start_dt end_dt starting label_filter = Ok r ->
  exists occs tl b,
    get_events_in_range fuel evs start_dt end_dt label_filter = Ok occs /\
    walk fuel (group_by_date occs) end_dt start_dt starting [] = Ok (tl, b) /\
    r = {| timeline := tl; events := occs;
           starting_balance := starting; ending_balance := round2 b |}.
Proof.
  unfold calculate_balance_timeline. intros Hrun.
  apply bind_Ok_inv in Hrun as (occs & Hocc & Hrun).
  apply bind_Ok_inv in Hrun as ([tl b] & Hwalk & Hret).
  exists occs, tl, b. repeat split; try assumption. now injection Hret.
Qed.

Lemma calculate_balance_timeline_terminates fuel evs start_dt end_dt
    (starting : Amount) label_filter :
  valid_date start_dt -> valid_date end_dt ->
  Forall expandable evs ->
  (timeline_fuel evs start_dt end_dt <= fuel)%nat ->
  exists r,
    calculate_balance_timeline fuel evs start_dt end_dt starting label_filter = Ok r.
Proof.
  intros Hs He Hwf Hfuel. unfold calculate_balance_timeline, timeline_fuel in *.
  destruct (get_events_in_range_terminates fuel evs start_dt end_dt label_filter
              Hs He Hwf) as (occs & ->); [lia|].
  rewrite bind_Ok.
  destruct (walk_terminates (group_by_date occs) end_dt He fuel start_dt
              starting [] Hs) as ([tl b] & ->); [lia..|].
  rewrite bind_Ok. eauto.
Qed.

(** ** The biweekly step *)

Lemma fast_forward_biweekly fuel i j start_date rec_end current :
  fast_forward fuel "biweekly" i start_date rec_end current =
  fast_forward fuel "biweekly" j start_date rec_end current.
Proof.
  revert current. induction fuel as [|fuel IH]; intros current; simpl;
    [reflexivity|].
  destruct (dt_ltb current start_date && dt_leb current rec_end); [|reflexivity].
  change (advance "biweekly" i current) with (Some (add_days 14 current)).
  change (advance "biweekly" j current) with (Some (add_days 14 current)).
  apply IH.
Qed.

Lemma emit_biweekly fuel interval ev i j start_date rec_end end_date current occs :
  emit fuel (with_interval interval ev) "biweekly" i start_date rec_end end_date
       current occs =
  emit fuel ev "biweekly" j start_date rec_end end_date current occs.
Proof.
  revert current occs.
  induction fuel as [|fuel IH]; intros current occs; simpl; [reflexivity|].
  destruct (dt_leb current (dt_min rec_end end_date)); [|reflexivity].
  change (advance "biweekly" i current) with (Some (add_days 14 current)).
  change (advance "biweekly" j current) with (Some (add_days 14 current)).
  apply IH.
Qed.

(* ================================================================== *)
(** * Part III: the claims of the specification                         *)
(* ================================================================== *)

(** ** Recurrence expansion *)

(** C1 (as the code has it).  A monthly event with interval 1 that starts
    on 2024-01-31, expanded over [2024-01-01, 2024-04-30], yields exactly
    2024-01-31, 2024-02-29, 2024-03-29 and 2024-04-29: the monthly step
    clamps the day of month to the minimum of the day of the current
    cursor, which is the previous and possibly already clamped occurrence,
    and the length of the target month.  The day of the recurrence start
    is not kept. *)
Theorem monthly_step_clamps_cursor_day ev :
  recurrence_pattern ev = "monthly" ->
  recurrence_interval ev = Some 1 ->
  recurrence_start ev = Some (mkdatetime 2024 1 31) ->
  recurrence_end ev = None ->
  (forall k : nat,
      exists occs,
        expand_recurring_event (6 + k) ev (mkdatetime 2024 1 1)
                               (mkdatetime 2024 4 30) = Ok occs /\
        map occ_date occs =
        [mkdatetime 2024 1 31; mkdatetime 2024 2 29;
         mkdatetime 2024 3 29; mkdatetime 2024 4 29]) /\
  (forall interval current,
      advance "monthly" interval current =
      Some (let target := month current + interval - 1 in
            let y := year current + target / 12 in
            let m := target mod 12 + 1 in
            mkdatetime y m (Z.min (day current) (days_in_month y m)))).
Proof.
  intros Hp Hi Hs He. split.
  - intros k. unfold expand_recurring_event, effective_interval.
    rewrite Hp, Hi, Hs, He.
    eexists. split; [vm_compute; reflexivity|]. reflexivity.
  - intros interval current. reflexivity.
Qed.

(** C5.  Every occurrence that the expansion of a recurring event produces
    has a date in the query window, in particular not after [end_date],
    whether or not the event has a recurrence end; and every occurrence
    that [get_events_in_range] returns, recurring or one-off, has a date
    in [start_date, end_date] inclusive.  For well-formed events the query
    returns. *)
Theorem occurrences_within_window fuel ev evs start_date end_date label_filter :
  (forall occs,
      expand_recurring_event fuel ev start_date end_date = Ok occs ->
      Forall (in_window start_date end_date) occs) /\
  (forall occs,
      get_events_in_range fuel evs start_date end_date label_filter = Ok occs ->
      Forall (in_window start_date end_date) occs) /\
  (valid_date start_date -> valid_date end_date -> Forall expandable evs ->
   (collect_fuel evs start_date end_date <= fuel)%nat ->
   exists occs,
     get_events_in_range fuel evs start_date end_date label_filter = Ok occs).
Proof.
  split; [|split].
  - intros occs Hrun.
    apply expand_dates in Hrun. eapply Forall_impl; [exact Hrun|].
    intros o (H1 & H2 & _). split; assumption.
  - intros occs Hrun. eapply get_events_in_range_window; eassumption.
  - intros Hs He Hwf Hfuel. now apply get_events_in_range_terminates.
Qed.

(** C7.  For the pattern biweekly every advancement step is
    [current + timedelta(weeks=2)], the date exactly 14 days later, whatever
    the interval; the expansion of a biweekly event therefore does not
    depend on its [recurrence_interval]. *)
Theorem biweekly_ignores_interval :
  (forall interval current,
      advance "biweekly" interval current = Some (add_days 14 current)) /\
  (forall current,
      valid_date current ->
      valid_date (add_days 14 current) /\
      toordinal (add_days 14 current) = toordinal current + 14) /\
  (forall fuel ev interval start_date end_date,
      recurrence_pattern ev = "biweekly" ->
      expand_recurring_event fuel (with_interval interval ev) start_date end_date
      = expand_recurring_event fuel ev start_date end_date).
Proof.
  split; [reflexivity|]. split.
  - intros current Hc. split.
    + now apply add_days_valid.
    + now apply add_days_toordinal.
  - intros fuel ev interval start_date end_date Hp.
    unfold expand_recurring_event. simpl.
    destruct (recurrence_start ev) as [rec_start|]; [|reflexivity].
    rewrite Hp.
    generalize (effective_interval (with_interval interval ev)) as i.
    generalize (effective_interval ev) as j.
    generalize (default end_date (recurrence_end ev)) as rec_end.
    intros rec_end j i.
    rewrite (fast_forward_biweekly fuel i j).
    destruct (fast_forward fuel "biweekly" j start_date rec_end rec_start);
      simpl; try reflexivity.
    apply emit_biweekly.
Qed.

(** C9.  A recurring event with a recurrence start whose pattern is none of
    daily, weekly, biweekly, monthly, quarterly, yearly is expanded without
    error: the result is the single occurrence at the recurrence start when
    that date lies in the window (and not after the recurrence end), and no
    occurrence otherwise; the loop over the events then goes on with the
    remaining events. *)
Theorem unknown_pattern_halts fuel ev rec_start start_date end_date :
  known_pattern (recurrence_pattern ev) = false ->
  recurrence_start ev = Some rec_start ->
  let own :=
    if dt_leb rec_start (dt_min (default end_date (recurrence_end ev)) end_date)
       && dt_geb rec_start start_date
    then [recurring_occurrence ev rec_start] else [] in
  expand_recurring_event (S fuel) ev start_date end_date = Ok own /\
  (length own <= 1)%nat /\
  (forall rest label_filter all_occurrences,
      is_recurring ev = true ->
      collect (S fuel) (ev :: rest) start_date end_date label_filter
              all_occurrences =
      collect (S fuel) rest start_date end_date label_filter
              (if passes_label_filter label_filter ev
               then all_occurrences ++ own else all_occurrences)).
Proof.
  intros Hk Hs own.
  assert (Hexp : expand_recurring_event (S fuel) ev start_date end_date = Ok own).
  { unfold expand_recurring_event. rewrite Hs. simpl.
    rewrite !(advance_unknown _ _ _ Hk).
    destruct (dt_ltb rec_start start_date
              && dt_leb rec_start (default end_date (recurrence_end ev)));
      simpl; rewrite !(advance_unknown _ _ _ Hk); subst own;
      destruct (dt_leb rec_start
                  (dt_min (default end_date (recurrence_end ev)) end_date));
      destruct (dt_geb rec_start start_date); reflexivity. }
  split; [exact Hexp|]. split.
  - subst own.
    destruct (dt_leb rec_start _ && dt_geb rec_start start_date); simpl; lia.
  - intros rest label_filter acc Hr.
    cbn [collect]. destruct (passes_label_filter label_filter ev); simpl.
    + rewrite Hr, Hexp. reflexivity.
    + reflexivity.
Qed.

(** C10.  For a recurring event with one of the six patterns and an
    interval of at least 1 (the interval the loops use: 1 stands in for a
    stored 0 or NULL) every advancement step moves the cursor to a strictly
    later date, and the expansion ends: with fuel for the days between the
    recurrence start and the later of the two window bounds, the two loops
    run to their end and the occurrences are returned. *)
Theorem expansion_terminates ev rec_start start_date end_date :
  known_pattern (recurrence_pattern ev) = true ->
  1 <= effective_interval ev ->
  recurrence_start ev = Some rec_start ->
  valid_date rec_start -> valid_date start_date -> valid_date end_date ->
  (forall current,
      valid_date current ->
      exists next,
        advance (recurrence_pattern ev) (effective_interval ev) current
          = Some next /\
        valid_date next /\ dt_ltb current next = true /\
        toordinal current < toordinal next) /\
  (forall fuel,
      (expansion_fuel rec_start start_date end_date <= fuel)%nat ->
      exists occs, expand_recurring_event fuel ev start_date end_date = Ok occs).
Proof.
  intros Hk Hi Hs Hv Hsd Hed. split.
  - intros current Hc.
    destruct (proj1 (advance_known _ (effective_interval ev) current) Hk)
      as [next Hadv].
    exists next.
    pose proof (advance_valid _ _ _ _ Hc Hadv) as Hn.
    pose proof (advance_ltb _ _ _ _ Hc Hi Hadv) as Hlt.
    repeat split; try assumption; try apply Hn.
    now apply toordinal_ltb.
  - intros fuel Hfuel. eapply expand_terminates; eassumption.
Qed.

(** Without the precondition the cursor walks backwards: a daily event with
    a negative interval that starts before the window never leaves the
    fast-forward loop of the model.  (In CPython the walk ends when the
    cursor leaves the year range of [datetime], which raises.) *)
Lemma negative_daily_interval_diverges interval start_date rec_end :
  interval < 0 ->
  forall fuel current,
    valid_date current ->
    dt_ltb current start_date = true -> dt_leb current rec_end = true ->
    fast_forward fuel "daily" interval start_date rec_end current = OutOfFuel.
Proof.
  intros Hi. induction fuel as [|fuel IH]; intros current Hc Hlt Hle;
    [reflexivity|].
  simpl. rewrite Hlt, Hle. simpl.
  change (advance "daily" interval current) with (Some (add_days interval current)).
  assert (Hback : dt_ltb (add_days interval current) current = true).
  { apply toordinal_ltb; auto using add_days_valid.
    rewrite add_days_toordinal by assumption. lia. }
  apply IH.
  - now apply add_days_valid.
  - revert Hback Hlt. rewrite !dt_ltb_spec. lia.
  - revert Hback Hle. rewrite dt_ltb_spec, !dt_leb_spec. lia.
Qed.

(** C2 (as the code has it).  There is no validation step for recurring
    events.  When the stored interval is 0 or NULL the expander runs with
    interval 1 and gives what it gives for a stored 1.  When the recurrence
    start is missing, the failure is the [TypeError] that the expander
    itself raises on parsing it. *)
Theorem invalid_recurrence_is_not_validated fuel ev start_date end_date :
  (recurrence_interval ev = Some 0 \/ recurrence_interval ev = None ->
   effective_interval ev = 1 /\
   expand_recurring_event fuel ev start_date end_date =
   expand_recurring_event fuel (with_interval (Some 1) ev) start_date end_date) /\
  (recurrence_start ev = None ->
   expand_recurring_event fuel ev start_date end_date = Raise TypeError).
Proof.
  split.
  - intros Hi.
    assert (He : effective_interval ev = 1)
      by (unfold effective_interval; destruct Hi as [-> | ->]; reflexivity).
    split; [exact He|].
    unfold expand_recurring_event. simpl.
    destruct (recurrence_start ev) as [rec_start|]; [|reflexivity].
    rewrite He.
    change (effective_interval (with_interval (Some 1) ev)) with 1.
    generalize (default end_date (recurrence_end ev)) as rec_end.
    generalize (recurrence_pattern ev) as pattern. intros pattern rec_end.
    destruct (fast_forward fuel pattern 1 start_date rec_end rec_start)
      as [current| |]; simpl; try reflexivity.
    generalize (@nil (occurrence Amount)) as occs. revert current.
    induction fuel as [|fuel IH]; intros current occs; simpl; [reflexivity|].
    destruct (dt_leb current (dt_min rec_end end_date)); [|reflexivity].
    destruct (advance pattern 1 current); [apply IH|reflexivity].
  - intros Hs. unfold expand_recurring_event. now rewrite Hs.
Qed.

(** ** Label filter *)

(** C8.  With a non-empty label filter an event is kept exactly when one
    of the filter's labels is among the event's labels; with an empty or
    absent filter every event is kept.  A kept event contributes its
    occurrences to the result: its one occurrence when it is a one-off
    event dated in the window, its whole expansion when it is recurring.
    The events that are not kept contribute nothing: every occurrence of
    the result comes from a kept event, and the query gives what the
    unfiltered query gives on the kept events alone. *)
Theorem label_filter_is_any_match label_filter ev :
  (forall lf, label_filter = Some lf -> lf <> [] ->
      (passes_label_filter label_filter ev = true <->
       exists label, In label lf /\ In label (ev_labels ev))) /\
  (label_filter = None \/ label_filter = Some [] ->
      passes_label_filter label_filter ev = true) /\
  (forall fuel evs start_date end_date,
      get_events_in_range fuel evs start_date end_date label_filter =
      get_events_in_range fuel
        (List.filter (passes_label_filter label_filter) evs)
        start_date end_date None) /\
  (forall fuel evs start_date end_date occs,
      get_events_in_range fuel evs start_date end_date label_filter = Ok occs ->
      (In ev evs -> passes_label_filter label_filter ev = true ->
       (is_recurring ev = false ->
        forall d, event_date ev = Some d ->
                  dt_leb start_date d = true -> dt_leb d end_date = true ->
                  In (one_off_occurrence ev d) occs) /\
       (is_recurring ev = true ->
        exists own,
          expand_recurring_event fuel ev start_date end_date = Ok own /\
          incl own occs)) /\
      Forall (fun o =>
                exists ev', In ev' evs /\
                            passes_label_filter label_filter ev' = true /\
                            occurrence_of ev' o) occs).
Proof.
  split; [|split; [|split]].
  - intros lf -> Hne. unfold passes_label_filter.
    destruct lf as [|l0 lf]; [congruence|].
    rewrite existsb_exists. split.
    + intros (label & Hin & Hdec). apply bool_decide_eq_true in Hdec.
      exists label. split; [exact Hin|]. now apply list_elem_of_In.
    + intros (label & Hin & Hlab). exists label. split; [exact Hin|].
      apply bool_decide_eq_true. now apply list_elem_of_In.
  - intros [-> | ->]; reflexivity.
  - intros fuel evs start_date end_date. unfold get_events_in_range.
    now rewrite collect_filter.
  - intros fuel evs start_date end_date occs Hrun.
    split; [|eapply get_events_in_range_provenance; exact Hrun].
    intros Hin Hpass.
    apply get_events_in_range_inv in Hrun as (all & Hc & ->).
    destruct (collect_member fuel start_date end_date label_filter ev Hpass
                evs [] all Hin Hc) as [Hone Hrec].
    split.
    + intros Hr d Hd H1 H2.
      apply (Permutation_in _ (Permutation_sym (sort_by_date_perm all))).
      now apply Hone.
    + intros Hr. destruct (Hrec Hr) as (own & Hown & Hincl).
      exists own. split; [exact Hown|]. intros x Hx.
      apply (Permutation_in _ (Permutation_sym (sort_by_date_perm all))).
      now apply Hincl.
Qed.

(** ** Balance timeline *)

(** C3 (as the code has it).  A window whose start is after its end is not
    rejected: whenever the computation returns, the timeline and the list of
    occurrences are both empty and the ending balance is the rounded
    starting balance; and it does return for well-formed events. *)
Theorem inverted_window_gives_empty_timeline fuel evs start_date end_date
    (starting : Amount) label_filter :
  dt_ltb end_date start_date = true ->
  (forall r,
      calculate_balance_timeline fuel evs start_date end_date starting
                                 label_filter = Ok r ->
      timeline r = [] /\ events r = [] /\
      starting_balance r = starting /\ ending_balance r = round2 starting) /\
  (valid_date start_date -> valid_date end_date -> Forall expandable evs ->
   (timeline_fuel evs start_date end_date <= fuel)%nat ->
   exists r,
     calculate_balance_timeline fuel evs start_date end_date starting
                                label_filter = Ok r).
Proof.
  intros Hinv. split.
  - intros r Hrun.
    apply calculate_balance_timeline_inv in Hrun as (occs & tl & b & Hocc & Hw & ->).
    simpl.
    assert (Hnone : occs = []).
    { apply get_events_in_range_window in Hocc.
      destruct occs as [|o l]; [reflexivity|].
      apply Forall_cons in Hocc as [[H1 H2] _].
      pose proof (dt_leb_trans _ _ _ H1 H2) as Hle.
      apply dt_leb_false in Hinv. congruence. }
    destruct fuel as [|fuel]; [discriminate|]. simpl in Hw.
    apply dt_leb_false in Hinv. rewrite Hinv in Hw.
    injection Hw as <- <-. auto.
  - intros Hs He Hwf Hfuel.
    now apply calculate_balance_timeline_terminates.
Qed.



(** C6.  For a window with [start_date <= end_date] the timeline has
    [(end_date - start_date).days + 1] points, and the point at position
    [k] is dated [k] days after [start_date]: one point for each calendar
    day of the window, whatever the occurrences.  For well-formed events
    the computation returns. *)
Theorem timeline_has_one_point_per_day fuel evs start_date end_date
    (starting : Amount) label_filter :
  valid_date start_date -> valid_date end_date ->
  dt_leb start_date end_date = true ->
  (forall r,
      calculate_balance_timeline fuel evs start_date end_date starting
                                 label_filter = Ok r ->
      Z.of_nat (length (timeline r)) =
        toordinal end_date - toordinal start_date + 1 /\
      map tp_date (timeline r) =
        map (fun k => add_days (Z.of_nat k) start_date)
            (seq 0 (length (timeline r)))) /\
  (Forall expandable evs ->
   (timeline_fuel evs start_date end_date <= fuel)%nat ->
   exists r,
     calculate_balance_timeline fuel evs start_date end_date starting
                                label_filter = Ok r).
Proof.
  intros Hs He Hle. split.
  - intros r Hrun.
    apply calculate_balance_timeline_inv in Hrun as (occs & tl & b & _ & Hw & ->).
    simpl.
    apply walk_dates in Hw; [|assumption..]. simpl in Hw.
    apply toordinal_leb in Hle; [|assumption..].
    assert (Hlen : length tl =
                   Z.to_nat (toordinal end_date - toordinal start_date + 1)).
    { rewrite <- (length_map tp_date tl), Hw, length_map, length_seq.
      reflexivity. }
    split; [lia|]. now rewrite Hlen.
  - intros Hwf Hfuel. now apply calculate_balance_timeline_terminates.
Qed.

End EngineProperties.

(* ================================================================== *)
(** * Part IV: the engine on concrete inputs                            *)
(* ================================================================== *)

Lemma valid_ymd (y m d : Z) : valid_dateb (ymd y m d) = true -> valid_date (ymd y m d).
Proof. apply valid_dateb_spec. Qed.

(** [date(2025, 1, 1).toordinal()] *)
Example toordinal_2025_01_01 : toordinal (ymd 2025 1 1) = 739252.
Proof. reflexivity. Qed.

(** ** Scenarios of the specification *)

(** Starting balance 1000, window [2025-01-01, 2025-01-03], one event of
    -50 on 2025-01-02. *)
Example scenario_one_debit :
  calculate_balance_timeline 5 [sample_one_off (-50) (ymd 2025 1 2)]
                             (ymd 2025 1 1) (ymd 2025 1 3) 1000 None
  = Ok {| timeline := [mkpoint (ymd 2025 1 1) 1000;
                       mkpoint (ymd 2025 1 2) 950;
                       mkpoint (ymd 2025 1 3) 950];
          events := [one_off_occurrence (sample_one_off (-50) (ymd 2025 1 2))
                                        (ymd 2025 1 2)];
          starting_balance := 1000;
          ending_balance := 950 |}.
Proof. vm_compute. reflexivity. Qed.

(** An event labelled rent and fixed is kept by the filter {fixed, other}
    and dropped by the filter {other}. *)
Example label_filter_scenario :
  passes_label_filter (Some ["fixed"; "other"]%list)
                      (sample_event "monthly" (Some 1) (Some (ymd 2025 1 1)) None)
    = true /\
  passes_label_filter (Some ["other"]%list)
                      (sample_event "monthly" (Some 1) (Some (ymd 2025 1 1)) None)
    = false.
Proof. split; vm_compute; reflexivity. Qed.

(** A biweekly event with interval 5 that starts on 2025-01-01. *)
Example biweekly_scenario :
  exists occs,
    expand_recurring_event 10
      (sample_event "biweekly" (Some 5) (Some (ymd 2025 1 1)) None)
      (ymd 2025 1 1) (ymd 2025 2 28) = Ok occs /\
    map occ_date occs =
    [ymd 2025 1 1; ymd 2025 1 15; ymd 2025 1 29; ymd 2025 2 12; ymd 2025 2 26].
Proof. eexists. split; vm_compute; reflexivity. Qed.

(** ** Inputs on which the specification and the code differ *)

(** The monthly event of 2024-01-31: the third and fourth occurrences fall
    on the 29th, not on 2024-03-31 and 2024-04-30, because the step from
    2024-02-29 clamps against the day 29. *)
Lemma monthly_anchor_day_counterexample :
  (exists occs,
      expand_recurring_event 6 monthly_jan31 (ymd 2024 1 1) (ymd 2024 4 30)
        = Ok occs /\
      map occ_date occs <>
      [ymd 2024 1 31; ymd 2024 2 29; ymd 2024 3 31; ymd 2024 4 30]) /\
  advance "monthly" 1 (ymd 2024 2 29) = Some (ymd 2024 3 29) /\
  Z.min (day (ymd 2024 1 31)) (days_in_month 2024 3) = 31.
Proof.
  split; [|split; reflexivity].
  eexists. split; [vm_compute; reflexivity|].
  vm_compute. discriminate.
Qed.

(** A recurring event stored with interval 0 is not rejected: the timeline
    is computed, with one occurrence on each day, as for interval 1. *)
Lemma zero_interval_counterexample :
  exists r,
    calculate_balance_timeline 10
      [sample_event "daily" (Some 0) (Some (ymd 2025 1 1)) None]
      (ymd 2025 1 1) (ymd 2025 1 3) 1000 None = Ok r /\
    map occ_date (events r) = [ymd 2025 1 1; ymd 2025 1 2; ymd 2025 1 3] /\
    ending_balance r = 850.
Proof. eexists. split; [vm_compute; reflexivity|]. split; reflexivity. Qed.


(** A window that ends before it starts is not rejected: the result is an
    empty timeline. *)
Lemma inverted_window_counterexample :
  calculate_balance_timeline 5
    [sample_one_off (-50) (ymd 2025 1 2);
     sample_event "daily" (Some 1) (Some (ymd 2025 1 1)) None]
    (ymd 2025 1 3) (ymd 2025 1 1) 1000 None
  = Ok {| timeline := []; events := [];
          starting_balance := 1000; ending_balance := 1000 |}.
Proof. vm_compute. reflexivity. Qed.

(** ** The theorems at concrete inputs *)

Ltac concrete_date := apply valid_ymd; reflexivity.



Lemma one_off_expandable (amount : Z) (date : datetime) :
  expandable (sample_one_off amount date).
Proof. intros Hr. discriminate. Qed.

Lemma monthly_step_clamps_cursor_day_witness :
  recurrence_start monthly_jan31 = Some (mkdatetime 2024 1 31) /\
  exists occs,
    expand_recurring_event 6 monthly_jan31 (mkdatetime 2024 1 1)
                           (mkdatetime 2024 4 30) = Ok occs /\
    map occ_date occs =
    [mkdatetime 2024 1 31; mkdatetime 2024 2 29;
     mkdatetime 2024 3 29; mkdatetime 2024 4 29].
Proof.
  split; [reflexivity|].
  exact (proj1 (monthly_step_clamps_cursor_day monthly_jan31
                  eq_refl eq_refl eq_refl eq_refl) 0%nat).
Defined.

Lemma invalid_recurrence_is_not_validated_witness :
  (recurrence_interval (sample_event "daily" (Some 0) (Some (ymd 2025 1 1)) None)
     = Some 0 /\
   expand_recurring_event 10
     (sample_event "daily" (Some 0) (Some (ymd 2025 1 1)) None)
     (ymd 2025 1 1) (ymd 2025 1 3) =
   expand_recurring_event 10
     (with_interval (Some 1)
        (sample_event "daily" (Some 0) (Some (ymd 2025 1 1)) None))
     (ymd 2025 1 1) (ymd 2025 1 3)) /\
  (recurrence_start (sample_event "daily" (Some 1) None None) = None /\
   expand_recurring_event 10 (sample_event "daily" (Some 1) None None)
     (ymd 2025 1 1) (ymd 2025 1 3) = Raise TypeError).
Proof.
  split; (split; [reflexivity|]).
  - apply (proj1 (invalid_recurrence_is_not_validated 10
                    (sample_event "daily" (Some 0) (Some (ymd 2025 1 1)) None)
                    (ymd 2025 1 1) (ymd 2025 1 3))).
    left. reflexivity.
  - apply (proj2 (invalid_recurrence_is_not_validated 10
                    (sample_event "daily" (Some 1) None None)
                    (ymd 2025 1 1) (ymd 2025 1 3))).
    reflexivity.
Defined.

Lemma inverted_window_gives_empty_timeline_witness :
  dt_ltb (ymd 2025 1 1) (ymd 2025 1 3) = true /\
  exists r,
    calculate_balance_timeline 5 [sample_one_off (-50) (ymd 2025 1 2)]
      (ymd 2025 1 3) (ymd 2025 1 1) 1000 None = Ok r /\
    timeline r = [] /\ events r = [] /\
    starting_balance r = 1000 /\ ending_balance r = round2 1000.
Proof.
  split; [reflexivity|].
  destruct (inverted_window_gives_empty_timeline 5
              [sample_one_off (-50) (ymd 2025 1 2)]
              (ymd 2025 1 3) (ymd 2025 1 1) 1000 None eq_refl) as [Hpart Htot].
  destruct Htot as [r Hr].
  - concrete_date.
  - concrete_date.
  - constructor; [apply one_off_expandable|constructor].
  - vm_compute. lia.
  - exists r. split; [exact Hr|]. exact (Hpart r Hr).
Defined.


Lemma occurrences_within_window_witness :
  exists occs,
    get_events_in_range 10
      [sample_one_off (-50) (ymd 2025 1 2);
       sample_event "weekly" (Some 1) (Some (ymd 2024 12 4)) None]
      (ymd 2025 1 1) (ymd 2025 1 31) None = Ok occs /\
    Forall (in_window (ymd 2025 1 1) (ymd 2025 1 31)) occs.
Proof.
  eexists. split; [vm_compute; reflexivity|].
  apply (proj1 (proj2 (occurrences_within_window 10
                  (sample_one_off (-50) (ymd 2025 1 2))
                  [sample_one_off (-50) (ymd 2025 1 2);
                   sample_event "weekly" (Some 1) (Some (ymd 2024 12 4)) None]
                  (ymd 2025 1 1) (ymd 2025 1 31) None))).
  vm_compute. reflexivity.
Defined.

Lemma timeline_has_one_point_per_day_witness :
  dt_leb (ymd 2025 1 1) (ymd 2025 1 3) = true /\
  exists r,
    calculate_balance_timeline 5 [sample_one_off (-50) (ymd 2025 1 2)]
      (ymd 2025 1 1) (ymd 2025 1 3) 1000 None = Ok r /\
    Z.of_nat (length (timeline r)) =
      toordinal (ymd 2025 1 3) - toordinal (ymd 2025 1 1) + 1.
Proof.
  split; [reflexivity|].
  destruct (timeline_has_one_point_per_day 5
              [sample_one_off (-50) (ymd 2025 1 2)]
              (ymd 2025 1 1) (ymd 2025 1 3) 1000 None) as [Hpart Htot].
  - concrete_date.
  - concrete_date.
  - reflexivity.
  - destruct Htot as [r Hr].
    + constructor; [apply one_off_expandable|constructor].
    + vm_compute. lia.
    + exists r. split; [exact Hr|]. exact (proj1 (Hpart r Hr)).
Defined.

Lemma biweekly_ignores_interval_witness :
  valid_date (ymd 2025 1 1) /\
  toordinal (add_days 14 (ymd 2025 1 1)) = toordinal (ymd 2025 1 1) + 14 /\
  expand_recurring_event 10
    (with_interval (Some 5)
       (sample_event "biweekly" (Some 1) (Some (ymd 2025 1 1)) None))
    (ymd 2025 1 1) (ymd 2025 2 28) =
  expand_recurring_event 10
    (sample_event "biweekly" (Some 1) (Some (ymd 2025 1 1)) None)
    (ymd 2025 1 1) (ymd 2025 2 28).
Proof.
  assert (Hv : valid_date (ymd 2025 1 1)) by concrete_date.
  destruct (biweekly_ignores_interval (Amount := Z)) as (_ & Hdays & Hexp).
  split; [exact Hv|]. split.
  - exact (proj2 (Hdays (ymd 2025 1 1) Hv)).
  - apply Hexp. reflexivity.
Defined.

Lemma label_filter_is_any_match_witness :
  passes_label_filter (Some ["fixed"; "other"]%list)
    (sample_event "weekly" (Some 1) (Some (ymd 2024 12 4)) None) = true /\
  (exists label,
      In label ["fixed"; "other"]%list /\
      In label (ev_labels
                  (sample_event "weekly" (Some 1) (Some (ymd 2024 12 4)) None))) /\
  exists occs own,
    get_events_in_range 10 january_store (ymd 2025 1 1) (ymd 2025 1 31)
      (Some ["fixed"; "other"]%list) = Ok occs /\
    expand_recurring_event 10
      (sample_event "weekly" (Some 1) (Some (ymd 2024 12 4)) None)
      (ymd 2025 1 1) (ymd 2025 1 31) = Ok own /\
    incl own occs.
Proof.
  destruct (label_filter_is_any_match (Some ["fixed"; "other"]%list)
              (sample_event "weekly" (Some 1) (Some (ymd 2024 12 4)) None))
    as (Hany & _ & _ & Hcontributes).
  split; [reflexivity|]. split.
  - apply (proj1 (Hany ["fixed"; "other"]%list eq_refl ltac:(discriminate))).
    reflexivity.
  - assert (Hrun : exists occs,
               get_events_in_range 10 january_store (ymd 2025 1 1)
                 (ymd 2025 1 31) (Some ["fixed"; "other"]%list) = Ok occs)
      by (eexists; vm_compute; reflexivity).
    destruct Hrun as [occs Hrun]. exists occs.
    destruct (Hcontributes 10%nat january_store (ymd 2025 1 1) (ymd 2025 1 31)
                occs Hrun) as [Hkept _].
    assert (Hin : In (sample_event "weekly" (Some 1) (Some (ymd 2024 12 4)) None)
                     january_store) by (right; left; reflexivity).
    destruct (Hkept Hin eq_refl) as [_ Hrec].
    destruct (Hrec eq_refl) as (own & Hown & Hincl).
    exists own. split; [exact Hrun|]. split; [exact Hown|exact Hincl].
Defined.

Lemma unknown_pattern_halts_witness :
  known_pattern "fortnightly" = false /\
  expand_recurring_event 1
    (sample_event "fortnightly" (Some 1) (Some (ymd 2025 1 2)) None)
    (ymd 2025 1 1) (ymd 2025 1 31)
  = Ok [recurring_occurrence
          (sample_event "fortnightly" (Some 1) (Some (ymd 2025 1 2)) None)
          (ymd 2025 1 2)].
Proof.
  split; [reflexivity|].
  exact (proj1 (unknown_pattern_halts 0
                  (sample_event "fortnightly" (Some 1) (Some (ymd 2025 1 2)) None)
                  (ymd 2025 1 2) (ymd 2025 1 1) (ymd 2025 1 31)
                  eq_refl eq_refl)).
Defined.

Lemma expansion_terminates_witness :
  1 <= effective_interval
         (sample_event "monthly" (Some 1) (Some (ymd 2024 1 31)) None) /\
  exists occs,
    expand_recurring_event 200
      (sample_event "monthly" (Some 1) (Some (ymd 2024 1 31)) None)
      (ymd 2024 1 1) (ymd 2024 4 30) = Ok occs.
Proof.
  split; [vm_compute; discriminate|].
  refine (proj2 (expansion_terminates
                   (sample_event "monthly" (Some 1) (Some (ymd 2024 1 31)) None)
                   (ymd 2024 1 31) (ymd 2024 1 1) (ymd 2024 4 30)
                   eq_refl _ eq_refl _ _ _) 200%nat _).
  - vm_compute. discriminate.
  - concrete_date.
  - concrete_date.
  - concrete_date.
  - vm_compute. lia.
Defined.

(* ================================================================== *)
(** * Part V: further properties of the code                            *)
(* ================================================================== *)

Lemma dt_ltb_trans (a b c : datetime) :
  dt_ltb a b = true -> dt_ltb b c = true -> dt_ltb a c = true.
Proof. rewrite !dt_ltb_spec. lia. Qed.

Lemma dt_ltb_leb_trans (a b c : datetime) :
  dt_ltb a b = true -> dt_leb b c = true -> dt_ltb a c = true.
Proof. rewrite !dt_ltb_spec, dt_leb_spec. lia. Qed.

Lemma dt_leb_ltb_trans (a b c : datetime) :
  dt_leb a b = true -> dt_ltb b c = true -> dt_ltb a c = true.
Proof. rewrite !dt_ltb_spec, dt_leb_spec. lia. Qed.

Lemma dt_ltb_irrefl (a : datetime) : dt_ltb a a = false.
Proof. apply dt_ltb_false, dt_leb_refl. Qed.

Section ExpanderProperties.

Context {Amount : Type} `{DateFormat}.

Implicit Types (ev : event Amount) (occs : list (occurrence Amount)).

(** ** The emission loop: accumulation and fuel *)

Lemma emit_extends fuel ev pattern interval start_date rec_end end_date :
  forall current occs result,
    emit fuel ev pattern interval start_date rec_end end_date current occs
      = Ok result ->
    exists new, result = occs ++ new.
Proof.
  induction fuel as [|fuel IH]; simpl; intros current occs result Hrun.
  - discriminate.
  - destruct (dt_leb current (dt_min rec_end end_date)).
    + destruct (advance pattern interval current) as [next|].
      * apply IH in Hrun as [new ->].
        destruct (dt_geb current start_date); eauto.
        rewrite <- app_assoc. eauto.
      * injection Hrun as <-.
        destruct (dt_geb current start_date); eauto.
        exists []. now rewrite app_nil_r.
    + injection Hrun as <-. exists []. now rewrite app_nil_r.
Qed.

Lemma emit_fuel_mono fuel ev pattern interval start_date rec_end end_date :
  forall fuel' current occs result,
    (fuel <= fuel')%nat ->
    emit fuel ev pattern interval start_date rec_end end_date current occs
      = Ok result ->
    emit fuel' ev pattern interval start_date rec_end end_date current occs
      = Ok result.
Proof.
  induction fuel as [|fuel IH]; simpl; intros fuel' current occs result Hle Hrun.
  - discriminate.
  - destruct fuel' as [|fuel']; [lia|]. simpl.
    destruct (dt_leb current (dt_min rec_end end_date)); [|exact Hrun].
    destruct (advance pattern interval current) as [next|]; [|exact Hrun].
    apply IH; [lia|exact Hrun].
Qed.

Lemma emit_past_end fuel ev pattern interval start_date rec_end end_date
    current occs result :
  dt_leb current (dt_min rec_end end_date) = false ->
  emit fuel ev pattern interval start_date rec_end end_date current occs
    = Ok result ->
  result = occs.
Proof.
  intros Hpast. destruct fuel as [|fuel]; simpl; [discriminate|].
  rewrite Hpast. now intros [= <-].
Qed.

(** The emission loop appends dates in strictly ascending order. *)
Lemma strongly_sorted_snoc occs (o : occurrence Amount) :
  StronglySorted date_lt occs ->
  Forall (fun o' => date_lt o' o) occs ->
  StronglySorted date_lt (occs ++ [o]).
Proof.
  induction 1 as [|o' l Hl IH Hall]; intros Hbelow; simpl.
  - repeat constructor.
  - apply Forall_cons in Hbelow as [Ho' Hbelow].
    constructor; [now apply IH|].
    apply Forall_app. split; [exact Hall|]. now apply Forall_singleton.
Qed.

Lemma emit_increasing ev pattern interval start_date rec_end end_date :
  1 <= interval ->
  forall fuel current occs result,
    valid_date current ->
    StronglySorted date_lt occs ->
    Forall (fun o => dt_ltb (occ_date o) current = true) occs ->
    emit fuel ev pattern interval start_date rec_end end_date current occs
      = Ok result ->
    StronglySorted date_lt result.
Proof.
  intros Hi.
  induction fuel as [|fuel IH]; simpl;
    intros current occs result Hc Hs Hbelow Hrun.
  - discriminate.
  - destruct (dt_leb current (dt_min rec_end end_date)); [|now injection Hrun as <-].
    set (occs' := if dt_geb current start_date
                  then occs ++ [recurring_occurrence ev current] else occs) in *.
    assert (Hs' : StronglySorted date_lt occs').
    { subst occs'. destruct (dt_geb current start_date); [|exact Hs].
      apply strongly_sorted_snoc; assumption. }
    destruct (advance pattern interval current) as [next|] eqn:Hadv;
      [|now injection Hrun as <-].
    pose proof (advance_valid _ _ _ _ Hc Hadv) as Hn.
    pose proof (advance_ltb _ _ _ _ Hc Hi Hadv) as Hlt.
    apply (IH next occs' result Hn Hs'); [|exact Hrun].
    subst occs'. destruct (dt_geb current start_date).
    + apply Forall_app. split.
      * eapply Forall_impl; [exact Hbelow|]. intros o Ho.
        exact (dt_ltb_trans _ _ _ Ho Hlt).
      * apply Forall_singleton. exact Hlt.
    + eapply Forall_impl; [exact Hbelow|]. intros o Ho.
      exact (dt_ltb_trans _ _ _ Ho Hlt).
Qed.

(** The cursor the fast-forward loop hands over is valid and not before
    the cursor it started from. *)
Lemma fast_forward_forward pattern interval start_date rec_end :
  1 <= interval ->
  forall fuel current c',
    valid_date current ->
    fast_forward fuel pattern interval start_date rec_end current = Ok c' ->
    valid_date c' /\ dt_leb current c' = true.
Proof.
  intros Hi fuel current c' Hc Hrun.
  apply (fast_forward_preserves
           (fun c => valid_date c /\ dt_leb current c = true)
           pattern interval start_date rec_end) with (fuel := fuel)
           (current := current); [|split; [exact Hc|apply dt_leb_refl]|exact Hrun].
  intros c1 c2 [Hv Hle] Hadv. split; [eapply advance_valid; eassumption|].
  apply dt_ltb_leb. eapply dt_leb_ltb_trans; [exact Hle|].
  eapply advance_ltb; eassumption.
Qed.

(** Skipping the fast-forward loop changes nothing: the emission loop
    started at the cursor it hands over and the emission loop started at
    the first cursor return the same list. *)
Lemma emit_after_fast_forward ev pattern interval start_date rec_end end_date :
  1 <= interval ->
  forall fuel fuel2 current c' occs result,
    valid_date current ->
    fast_forward fuel pattern interval start_date rec_end current = Ok c' ->
    emit fuel2 ev pattern interval start_date rec_end end_date c' occs
      = Ok result ->
    emit (fuel + fuel2) ev pattern interval start_date rec_end end_date
         current occs = Ok result.
Proof.
  intros Hi. induction fuel as [|fuel IH];
    intros fuel2 current c' occs result Hc Hff Hem; [discriminate|].
  assert (Hmono : forall c, emit fuel2 ev pattern interval start_date rec_end
                              end_date c occs = Ok result ->
                            emit (S fuel + fuel2) ev pattern interval start_date
                              rec_end end_date c occs = Ok result).
  { intros c. apply emit_fuel_mono. lia. }
  simpl in Hff.
  destruct (dt_ltb current start_date && dt_leb current rec_end) eqn:Hcond;
    [|injection Hff as <-; now apply Hmono].
  destruct (advance pattern interval current) as [next|] eqn:Hadv;
    [|injection Hff as <-; now apply Hmono].
  apply andb_true_iff in Hcond as [Hlt _].
  pose proof (advance_valid _ _ _ _ Hc Hadv) as Hn.
  pose proof (advance_ltb _ _ _ _ Hc Hi Hadv) as Hstep.
  change (S fuel + fuel2)%nat with (S (fuel + fuel2)). simpl.
  destruct (dt_leb current (dt_min rec_end end_date)) eqn:Hin.
  - rewrite Hadv.
    assert (Hge : dt_geb current start_date = false).
    { unfold dt_geb. now apply dt_leb_false. }
    rewrite Hge. eapply IH; eassumption.
  - destruct (fast_forward_forward pattern interval start_date rec_end Hi
                fuel next c' Hn Hff) as [_ Hle].
    f_equal. symmetry. eapply emit_past_end; [|exact Hem].
    apply dt_leb_false. apply dt_leb_false in Hin.
    eapply dt_ltb_leb_trans; [|exact Hle].
    eapply dt_ltb_trans; eassumption.
Qed.

Lemma strongly_sorted_lt_nodup occs :
  StronglySorted date_lt occs -> NoDup (map occ_date occs).
Proof.
  induction 1 as [|o l Hl IH Hall]; simpl; constructor; [|exact IH].
  intros Hin. apply list_elem_of_In, in_map_iff in Hin as (o' & Heq & Hin').
  rewrite List.Forall_forall in Hall. specialize (Hall o' Hin').
  unfold date_lt in Hall. rewrite Heq, dt_ltb_irrefl in Hall. discriminate.
Qed.

Lemma fast_forward_ext pattern interval pattern' interval' start_date rec_end :
  (forall c, advance pattern interval c = advance pattern' interval' c) ->
  forall fuel current,
    fast_forward fuel pattern interval start_date rec_end current =
    fast_forward fuel pattern' interval' start_date rec_end current.
Proof.
  intros Hadv. induction fuel as [|fuel IH]; intros current; simpl; [reflexivity|].
  rewrite Hadv.
  destruct (dt_ltb current start_date && dt_leb current rec_end); [|reflexivity].
  destruct (advance pattern' interval' current); [apply IH|reflexivity].
Qed.

Lemma emit_ext ev ev' pattern interval pattern' interval' start_date rec_end
    end_date :
  (forall c, advance pattern interval c = advance pattern' interval' c) ->
  (forall c, recurring_occurrence ev c = recurring_occurrence ev' c) ->
  forall fuel current occs,
    emit fuel ev pattern interval start_date rec_end end_date current occs =
    emit fuel ev' pattern' interval' start_date rec_end end_date current occs.
Proof.
  intros Hadv Hocc.
  induction fuel as [|fuel IH]; intros current occs; simpl; [reflexivity|].
  rewrite Hadv, Hocc.
  destruct (dt_leb current (dt_min rec_end end_date)); [|reflexivity].
  destruct (advance pattern' interval' current); [apply IH|reflexivity].
Qed.

Lemma expand_ext ev ev' start_date end_date fuel :
  recurrence_start ev = recurrence_start ev' ->
  recurrence_end ev = recurrence_end ev' ->
  (forall c, advance (recurrence_pattern ev) (effective_interval ev) c =
             advance (recurrence_pattern ev') (effective_interval ev') c) ->
  (forall c, recurring_occurrence ev c = recurring_occurrence ev' c) ->
  expand_recurring_event fuel ev start_date end_date =
  expand_recurring_event fuel ev' start_date end_date.
Proof.
  intros Hs He Hadv Hocc. unfold expand_recurring_event.
  rewrite <- Hs, <- He.
  destruct (recurrence_start ev) as [rec_start|]; [|reflexivity].
  rewrite (fast_forward_ext _ _ _ _ start_date
             (default end_date (recurrence_end ev)) Hadv).
  destruct (fast_forward fuel _ _ start_date _ rec_start); simpl; try reflexivity.
  now apply emit_ext.
Qed.

(** ** Properties of [expand_recurring_event] *)

(** X1.  With an interval of at least 1 the occurrences of a recurring
    event come out in strictly ascending date order, so no date occurs
    twice. *)
Theorem expansion_strictly_increasing fuel ev rec_start start_date end_date occs :
  recurrence_start ev = Some rec_start -> valid_date rec_start ->
  1 <= effective_interval ev ->
  expand_recurring_event fuel ev start_date end_date = Ok occs ->
  StronglySorted date_lt occs /\ NoDup (map occ_date occs).
Proof.
  intros Hs Hv Hi Hrun.
  assert (Hsorted : StronglySorted date_lt occs).
  { unfold expand_recurring_event in Hrun. rewrite Hs in Hrun.
    apply bind_Ok_inv in Hrun as (current & Hff & Hem).
    destruct (fast_forward_forward _ _ _ _ Hi _ _ _ Hv Hff) as [Hc _].
    eapply emit_increasing; [exact Hi|exact Hc| | |exact Hem]; constructor. }
  split; [exact Hsorted|now apply strongly_sorted_lt_nodup].
Qed.

(** X2.  No occurrence is dated after the recurrence end when the event
    has one, whatever the interval and the recurrence start; and with a
    recurrence start that is a calendar date and an interval of at least 1
    no occurrence is dated before the recurrence start. *)
Theorem occurrences_between_recurrence_bounds fuel ev start_date end_date occs :
  expand_recurring_event fuel ev start_date end_date = Ok occs ->
  (forall rec_end,
      recurrence_end ev = Some rec_end ->
      Forall (fun o => dt_leb (occ_date o) rec_end = true) occs) /\
  (forall rec_start,
      recurrence_start ev = Some rec_start -> valid_date rec_start ->
      1 <= effective_interval ev ->
      Forall (fun o => dt_leb rec_start (occ_date o) = true) occs).
Proof.
  intros Hrun. split.
  - intros rec_end Hre. apply expand_dates in Hrun.
    rewrite Hre in Hrun. simpl in Hrun.
    eapply Forall_impl; [exact Hrun|]. now intros o (_ & _ & Hend).
  - intros rec_start Hs Hv Hi. revert Hrun.
    apply (expand_preserves _
             (fun c => valid_date c /\ dt_leb rec_start c = true)).
    + intros c c' [Hc Hle] Hadv. split; [eapply advance_valid; eassumption|].
      apply dt_ltb_leb. eapply dt_leb_ltb_trans; [exact Hle|].
      eapply advance_ltb; eassumption.
    + intros rs Hrs. assert (rs = rec_start) as -> by congruence.
      split; [exact Hv|apply dt_leb_refl].
    + intros c [_ Hle] _ _. exact Hle.
Qed.

(** X3.  When the recurrence start lies in the query window and not after
    the recurrence end, the first occurrence returned is the one dated at
    the recurrence start, whatever the pattern and the interval. *)
Theorem first_occurrence_is_recurrence_start fuel ev rec_start start_date
    end_date occs :
  recurrence_start ev = Some rec_start ->
  dt_leb start_date rec_start = true ->
  dt_leb rec_start (dt_min (default end_date (recurrence_end ev)) end_date)
    = true ->
  expand_recurring_event fuel ev start_date end_date = Ok occs ->
  exists rest, occs = recurring_occurrence ev rec_start :: rest.
Proof.
  intros Hs Hge Hle Hrun. unfold expand_recurring_event in Hrun.
  rewrite Hs in Hrun. destruct fuel as [|fuel]; [discriminate|].
  cbn [fast_forward] in Hrun.
  assert (Hnlt : dt_ltb rec_start start_date = false) by now apply dt_ltb_false.
  rewrite Hnlt in Hrun. cbn [andb] in Hrun. rewrite bind_Ok in Hrun.
  cbn [emit] in Hrun. rewrite Hle in Hrun.
  unfold dt_geb in Hrun. rewrite Hge in Hrun.
  destruct (advance (recurrence_pattern ev) (effective_interval ev) rec_start).
  - apply emit_extends in Hrun as [new ->]. simpl. eauto.
  - injection Hrun as <-. simpl. eauto.
Qed.

(** X4.  The fast-forward loop only saves work: with an interval of at
    least 1, the emission loop alone, started at the recurrence start,
    returns the occurrences that the expansion returns. *)
Theorem fast_forward_is_an_optimisation fuel ev rec_start start_date end_date
    occs :
  recurrence_start ev = Some rec_start -> valid_date rec_start ->
  1 <= effective_interval ev ->
  expand_recurring_event fuel ev start_date end_date = Ok occs ->
  emit (fuel + fuel) ev (recurrence_pattern ev) (effective_interval ev)
       start_date (default end_date (recurrence_end ev)) end_date rec_start []
  = Ok occs.
Proof.
  intros Hs Hv Hi Hrun. unfold expand_recurring_event in Hrun.
  rewrite Hs in Hrun. apply bind_Ok_inv in Hrun as (current & Hff & Hem).
  eapply emit_after_fast_forward; eassumption.
Qed.

(** X5.  For the patterns daily, weekly and biweekly every occurrence lies
    a whole number of steps after the recurrence start, the step being
    [interval], [7 * interval] and 14 days; weekly and biweekly occurrences
    therefore all fall on the weekday of the recurrence start. *)
Theorem day_patterns_keep_spacing fuel ev rec_start start_date end_date occs
    (step : Z) :
  recurrence_start ev = Some rec_start -> valid_date rec_start ->
  (recurrence_pattern ev = "daily" /\ step = effective_interval ev) \/
  (recurrence_pattern ev = "weekly" /\ step = 7 * effective_interval ev) \/
  (recurrence_pattern ev = "biweekly" /\ step = 14) ->
  expand_recurring_event fuel ev start_date end_date = Ok occs ->
  Forall (fun o =>
            (exists k, 0 <= k /\
               toordinal (occ_date o) = toordinal rec_start + k * step) /\
            (recurrence_pattern ev <> "daily" ->
             toordinal (occ_date o) mod 7 = toordinal rec_start mod 7)) occs.
Proof.
  intros Hs Hv Hpat.
  assert (Hadv : forall c, advance (recurrence_pattern ev)
                             (effective_interval ev) c = Some (add_days step c)).
  { intros c. destruct Hpat as [[-> ->]|[[-> ->]|[-> ->]]]; reflexivity. }
  assert (Hweek : recurrence_pattern ev <> "daily" -> exists w, step = 7 * w).
  { intros Hnd. destruct Hpat as [[Hp _]|[[_ ->]|[_ ->]]];
      [congruence|eauto|exists 2; reflexivity]. }
  apply (expand_preserves _
           (fun c => valid_date c /\
                     exists k, 0 <= k /\
                       toordinal c = toordinal rec_start + k * step)).
  - intros c c' [Hc (k & Hk & Hord)]. rewrite Hadv. intros [= <-].
    split; [now apply add_days_valid|].
    exists (k + 1). split; [lia|].
    rewrite add_days_toordinal by assumption. lia.
  - intros rs Hrs. assert (rs = rec_start) as -> by congruence.
    split; [exact Hv|]. exists 0. lia.
  - intros c [_ (k & Hk & Hord)] _ _. simpl. split; [eauto|].
    intros Hnd. destruct (Hweek Hnd) as [w ->]. rewrite Hord.
    replace (toordinal rec_start + k * (7 * w))
      with (toordinal rec_start + (k * w) * 7) by lia.
    apply Z.mod_add. lia.
Qed.

(** X6.  For the patterns monthly, quarterly and yearly the day of month
    of an occurrence is never later than the day of month of the recurrence
    start, and it is that very day when the recurrence start is on the 28th
    or earlier; yearly occurrences keep the month of the recurrence
    start. *)
Theorem month_patterns_keep_day fuel ev rec_start start_date end_date occs :
  recurrence_start ev = Some rec_start -> valid_date rec_start ->
  recurrence_pattern ev = "monthly" \/ recurrence_pattern ev = "quarterly" \/
  recurrence_pattern ev = "yearly" ->
  expand_recurring_event fuel ev start_date end_date = Ok occs ->
  Forall (fun o =>
            day (occ_date o) <= day rec_start /\
            (day rec_start <= 28 -> day (occ_date o) = day rec_start) /\
            (recurrence_pattern ev = "yearly" ->
             month (occ_date o) = month rec_start)) occs.
Proof.
  intros Hs Hv Hpat.
  apply (expand_preserves _
           (fun c => valid_date c /\ day c <= day rec_start /\
                     (day rec_start <= 28 -> day c = day rec_start) /\
                     (recurrence_pattern ev = "yearly" ->
                      month c = month rec_start))).
  - intros c c' (Hc & Hle & Hsame & Hmonth) Hadv.
    split; [eapply advance_valid; eassumption|].
    destruct Hpat as [Hp|[Hp|Hp]]; rewrite Hp in *;
      injection Hadv as <-; unfold add_months, add_years; simpl.
    + pose proof (add_months_valid (effective_interval ev) c Hc) as [Hm' _].
      pose proof (days_in_month_bounds
                    (year (add_months (effective_interval ev) c)) _ Hm') as Hb.
      unfold add_months in Hb. simpl in Hb.
      repeat split; [lia|lia|discriminate].
    + pose proof (add_months_valid (3 * effective_interval ev) c Hc) as [Hm' _].
      pose proof (days_in_month_bounds
                    (year (add_months (3 * effective_interval ev) c)) _ Hm')
        as Hb.
      unfold add_months in Hb. simpl in Hb.
      repeat split; [lia|lia|discriminate].
    + destruct Hc as [Hm _].
      pose proof (days_in_month_bounds (year c + effective_interval ev) _ Hm).
      repeat split; [lia|lia|]. intros _. now apply Hmonth.
  - intros rs Hrs. assert (rs = rec_start) as -> by congruence.
    split; [exact Hv|]. repeat split; auto; lia.
  - intros c (_ & Hle & Hsame & Hmonth) _ _. simpl. auto.
Qed.

(** X7.  A quarterly event with interval [i] has the occurrences of the
    monthly event with interval [3 * i], a weekly event with interval [i]
    those of the daily event with interval [7 * i], and a biweekly event
    those of the daily event with interval 14. *)
Theorem patterns_reduce_to_monthly_and_daily fuel ev start_date end_date i :
  recurrence_interval ev = Some i -> i <> 0 ->
  (recurrence_pattern ev = "quarterly" ->
   expand_recurring_event fuel ev start_date end_date =
   expand_recurring_event fuel
     (with_pattern "monthly" (with_interval (Some (3 * i)) ev))
     start_date end_date) /\
  (recurrence_pattern ev = "weekly" ->
   expand_recurring_event fuel ev start_date end_date =
   expand_recurring_event fuel
     (with_pattern "daily" (with_interval (Some (7 * i)) ev))
     start_date end_date) /\
  (recurrence_pattern ev = "biweekly" ->
   expand_recurring_event fuel ev start_date end_date =
   expand_recurring_event fuel
     (with_pattern "daily" (with_interval (Some 14) ev))
     start_date end_date).
Proof.
  intros Hint Hnz.
  assert (Heff : effective_interval ev = i).
  { unfold effective_interval. rewrite Hint.
    destruct (Z.eqb_spec i 0); [contradiction|reflexivity]. }
  assert (Heff' : forall k p, k <> 0 ->
             effective_interval (with_pattern p (with_interval (Some k) ev)) = k).
  { intros k p Hk. unfold effective_interval. simpl.
    destruct (Z.eqb_spec k 0); [contradiction|reflexivity]. }
  repeat split; intros Hp; apply expand_ext; try reflexivity;
    intros c; cbn [recurrence_pattern with_pattern];
    rewrite Hp, Heff, Heff' by lia; reflexivity.
Qed.

(** ** Narrowing the query window *)

Lemma dt_min_leb_iff (c a b : datetime) :
  dt_leb c (dt_min a b) = true <-> dt_leb c a = true /\ dt_leb c b = true.
Proof.
  unfold dt_min. destruct (dt_ltb b a) eqn:E.
  - split; [|tauto]. intros Hc. split; [|exact Hc].
    eapply dt_leb_trans; [exact Hc|now apply dt_ltb_leb].
  - apply dt_ltb_false in E. split; [|tauto]. intros Hc. split; [exact Hc|].
    eapply dt_leb_trans; eassumption.
Qed.

Lemma emit_new_bounds ev pattern interval start_date rec_end end_date :
  1 <= interval ->
  forall fuel current occs result,
    valid_date current ->
    emit fuel ev pattern interval start_date rec_end end_date current occs
      = Ok result ->
    exists new,
      result = occs ++ new /\
      Forall (fun o => dt_leb current (occ_date o) = true /\
                       dt_leb (occ_date o) (dt_min rec_end end_date) = true) new.
Proof.
  intros Hi. induction fuel as [|fuel IH]; simpl;
    intros current occs result Hc Hrun; [discriminate|].
  destruct (dt_leb current (dt_min rec_end end_date)) eqn:Hin;
    [|injection Hrun as <-; exists []; now rewrite app_nil_r].
  assert (Hown : Forall (fun o => dt_leb current (occ_date o) = true /\
                   dt_leb (occ_date o) (dt_min rec_end end_date) = true)
                   [recurring_occurrence ev current]).
  { apply Forall_singleton. simpl. split; [apply dt_leb_refl|exact Hin]. }
  destruct (advance pattern interval current) as [next|] eqn:Hadv.
  - pose proof (advance_valid _ _ _ _ Hc Hadv) as Hn.
    pose proof (advance_ltb _ _ _ _ Hc Hi Hadv) as Hlt.
    apply IH in Hrun as (new & -> & Hnew); [|exact Hn].
    assert (Hnew' : Forall (fun o => dt_leb current (occ_date o) = true /\
                      dt_leb (occ_date o) (dt_min rec_end end_date) = true) new).
    { eapply Forall_impl; [exact Hnew|]. intros o [H1 H2]. split; [|exact H2].
      apply dt_ltb_leb. eapply dt_ltb_leb_trans; eassumption. }
    destruct (dt_geb current start_date).
    + exists (recurring_occurrence ev current :: new).
      split; [now rewrite <- app_assoc|]. apply Forall_cons. split; [|exact Hnew'].
      exact (proj1 (Forall_singleton _ _) Hown).
    + exists new. split; [reflexivity|exact Hnew'].
  - injection Hrun as <-. destruct (dt_geb current start_date).
    + exists [recurring_occurrence ev current]. split; [reflexivity|exact Hown].
    + exists []. split; [now rewrite app_nil_r|constructor].
Qed.

Lemma emit_narrow ev pattern interval start_date rec_end end_date
    start_date' rec_end' end_date' :
  1 <= interval ->
  dt_leb start_date start_date' = true ->
  (forall c, dt_leb c (dt_min rec_end' end_date') = true <->
             dt_leb c (dt_min rec_end end_date) = true /\
             dt_leb c end_date' = true) ->
  forall fuel fuel' current occs result result',
    valid_date current ->
    emit fuel ev pattern interval start_date rec_end end_date current occs
      = Ok result ->
    emit fuel' ev pattern interval start_date' rec_end' end_date' current
         (filter (fun o => dt_leb start_date' (occ_date o) = true /\
                           dt_leb (occ_date o) end_date' = true) occs)
      = Ok result' ->
    result' = filter (fun o => dt_leb start_date' (occ_date o) = true /\
                               dt_leb (occ_date o) end_date' = true) result.
Proof.
  intros Hi Hss Hbound.
  induction fuel as [|fuel IH];
    intros fuel' current occs result result' Hc Hwide Hnarrow; [discriminate|].
  destruct fuel' as [|fuel']; [discriminate|].
  cbn [emit] in Hnarrow.
  destruct (dt_leb current (dt_min rec_end' end_date')) eqn:Hn.
  - apply Hbound in Hn as [Hw He']. cbn [emit] in Hwide. rewrite Hw in Hwide.
    set (w := fun o : occurrence Amount =>
                dt_leb start_date' (occ_date o) = true /\
                dt_leb (occ_date o) end_date' = true) in *.
    assert (Hacc :
              (if dt_geb current start_date'
               then filter w occs ++ [recurring_occurrence ev current]
               else filter w occs) =
              filter w (if dt_geb current start_date
                        then occs ++ [recurring_occurrence ev current]
                        else occs)).
    { unfold dt_geb. destruct (dt_leb start_date' current) eqn:Hge'.
      - rewrite (dt_leb_trans _ _ _ Hss Hge'), filter_app. f_equal.
        rewrite filter_cons_True by (split; assumption). reflexivity.
      - destruct (dt_leb start_date current); [|reflexivity].
        rewrite filter_app, filter_cons_False, filter_nil, app_nil_r;
          [reflexivity|].
        intros [Hx _]. simpl in Hx. congruence. }
    rewrite Hacc in Hnarrow.
    destruct (advance pattern interval current) as [next|] eqn:Hadv.
    + eapply IH; [|exact Hwide|exact Hnarrow].
      eapply advance_valid; eassumption.
    + injection Hwide as <-. now injection Hnarrow as <-.
  - injection Hnarrow as <-.
    destruct (emit_new_bounds ev pattern interval start_date rec_end end_date
                Hi (S fuel) current occs result Hc Hwide) as (new & -> & Hnew).
    rewrite filter_app.
    rewrite (filter_none _ new); [now rewrite app_nil_r|].
    eapply Forall_impl; [exact Hnew|]. intros o [Hge Hle] [_ He'].
    assert (Hcur : dt_leb current (dt_min rec_end' end_date') = true).
    { apply Hbound. split; eapply dt_leb_trans; eassumption. }
    congruence.
Qed.

Lemma expand_narrow fuel fuel' ev rec_start
    start_date end_date start_date' end_date' occs occs' :
  recurrence_start ev = Some rec_start -> valid_date rec_start ->
  1 <= effective_interval ev ->
  dt_leb start_date start_date' = true -> dt_leb end_date' end_date = true ->
  expand_recurring_event fuel ev start_date end_date = Ok occs ->
  expand_recurring_event fuel' ev start_date' end_date' = Ok occs' ->
  occs' = filter (fun o => dt_leb start_date' (occ_date o) = true /\
                           dt_leb (occ_date o) end_date' = true) occs.
Proof.
  intros Hs Hv Hi Hss Hee Hwide Hnarrow.
  unfold expand_recurring_event in Hwide, Hnarrow. rewrite Hs in *.
  apply bind_Ok_inv in Hwide as (c & Hff & Hem).
  apply bind_Ok_inv in Hnarrow as (c' & Hff' & Hem').
  pose proof (emit_after_fast_forward ev _ _ _ _ _ Hi _ _ _ _ _ _ Hv Hff Hem)
    as Hw.
  pose proof (emit_after_fast_forward ev _ _ _ _ _ Hi _ _ _ _ _ _ Hv Hff' Hem')
    as Hn.
  eapply (emit_narrow ev _ _ start_date _ end_date start_date' _ end_date' Hi Hss);
    [|exact Hv|exact Hw|exact Hn].
  intros x. rewrite !dt_min_leb_iff.
  destruct (recurrence_end ev) as [rec_end|]; simpl.
  - split; [intros [H1 H2]|tauto].
    repeat split; try assumption. eapply dt_leb_trans; eassumption.
  - split; [intros [H1 _]|tauto].
    repeat split; try assumption; eapply dt_leb_trans; eassumption.
Qed.

(** X8.  Querying a narrower window returns exactly those occurrences of
    the wider window that fall in the narrower one: for an event with an
    interval of at least 1, the expansion over [start', end'] inside
    [start, end] is the expansion over [start, end] restricted to the dates
    in [start', end'], in the same order. *)
Theorem narrower_window_restricts_expansion fuel fuel' ev rec_start
    start_date end_date start_date' end_date' occs occs' :
  recurrence_start ev = Some rec_start -> valid_date rec_start ->
  1 <= effective_interval ev ->
  dt_leb start_date start_date' = true -> dt_leb end_date' end_date = true ->
  expand_recurring_event fuel ev start_date end_date = Ok occs ->
  expand_recurring_event fuel' ev start_date' end_date' = Ok occs' ->
  occs' = filter (fun o => dt_leb start_date' (occ_date o) = true /\
                           dt_leb (occ_date o) end_date' = true) occs.
Proof.
  intros. eapply expand_narrow; eassumption.
Qed.

End ExpanderProperties.

Section AggregatorProperties.

Context {Amount : Type} `{Numeric Amount} `{DateFormat}.

Implicit Types (ev : event Amount) (evs : list (event Amount)).
Implicit Types (o : occurrence Amount) (occs : list (occurrence Amount)).

(** ** The loop over the events *)

(** ** The sort is stable *)

Lemma insert_by_date_stable o occs (key : string) :
  filter (fun x => occ_date_str x = key) (insert_by_date o occs) =
  filter (fun x => occ_date_str x = key) (o :: occs).
Proof.
  induction occs as [|o' l IH]; simpl; [reflexivity|].
  destruct (String.leb (occ_date_str o) (occ_date_str o')) eqn:Hle;
    [reflexivity|].
  rewrite filter_cons, IH.
  assert (Hne : occ_date_str o' = key -> occ_date_str o <> key).
  { intros <- Heq. rewrite Heq, str_leb_refl in Hle. discriminate. }
  rewrite !(filter_cons _ o), (filter_cons _ o').
  destruct (decide (occ_date_str o' = key)) as [Ho'|Ho'];
    destruct (decide (occ_date_str o = key)) as [Ho|Ho]; try reflexivity.
  now destruct (Hne Ho').
Qed.

Lemma sort_by_date_stable occs (key : string) :
  filter (fun x => occ_date_str x = key) (sort_by_date occs) =
  filter (fun x => occ_date_str x = key) occs.
Proof.
  induction occs as [|o l IH]; simpl; [reflexivity|].
  now rewrite insert_by_date_stable, !filter_cons, IH.
Qed.

(** ** Properties of [get_events_in_range] *)

(** X9.  The list returned is the collected occurrences sorted by their
    ['date'] strings, in ascending string order, and the sort is stable:
    the occurrences that have the same ['date'] string keep the order in
    which the loop over the events produced them. *)
Theorem events_are_sorted_stably fuel evs start_date end_date label_filter occs :
  get_events_in_range fuel evs start_date end_date label_filter = Ok occs ->
  exists all_occurrences,
    collect fuel evs start_date end_date label_filter [] = Ok all_occurrences /\
    Permutation occs all_occurrences /\
    StronglySorted date_str_le occs /\
    forall key : string,
      filter (fun o => occ_date_str o = key) occs =
      filter (fun o => occ_date_str o = key) all_occurrences.
Proof.
  intros Hrun. apply get_events_in_range_inv in Hrun as (all & Hc & ->).
  exists all. split; [exact Hc|]. split; [apply sort_by_date_perm|].
  split; [apply sort_by_date_sorted|]. intros key. apply sort_by_date_stable.
Qed.

(** X10.  A one-off event that the label filter keeps appears among the
    returned occurrences exactly when its date lies in the window, both
    bounds included. *)
Theorem one_off_event_included_iff_in_window fuel evs ev d start_date end_date
    label_filter occs :
  In ev evs -> passes_label_filter label_filter ev = true ->
  is_recurring ev = false -> event_date ev = Some d ->
  get_events_in_range fuel evs start_date end_date label_filter = Ok occs ->
  (In (one_off_occurrence ev d) occs <->
   dt_leb start_date d = true /\ dt_leb d end_date = true).
Proof.
  intros Hin Hpass Hr Hd Hrun. split.
  - intros Hocc.
    apply get_events_in_range_window in Hrun.
    rewrite List.Forall_forall in Hrun. exact (Hrun _ Hocc).
  - intros [H1 H2].
    apply get_events_in_range_inv in Hrun as (all & Hc & ->).
    apply (Permutation_in _ (Permutation_sym (sort_by_date_perm all))).
    destruct (collect_member fuel start_date end_date label_filter ev Hpass
                evs [] all Hin Hc) as [Hone _].
    now apply Hone.
Qed.

(** X11.  A recurring event that the label filter keeps contributes its
    whole expansion: when the query returns, the expansion of the event
    returned too and each of its occurrences is in the result. *)
Theorem recurring_event_contributes_its_expansion fuel evs ev start_date
    end_date label_filter occs :
  In ev evs -> passes_label_filter label_filter ev = true ->
  is_recurring ev = true ->
  get_events_in_range fuel evs start_date end_date label_filter = Ok occs ->
  exists own,
    expand_recurring_event fuel ev start_date end_date = Ok own /\
    incl own occs.
Proof.
  intros Hin Hpass Hr Hrun.
  apply get_events_in_range_inv in Hrun as (all & Hc & ->).
  destruct (collect_member fuel start_date end_date label_filter ev Hpass
              evs [] all Hin Hc) as [_ Hrec].
  destruct (Hrec Hr) as (own & Hown & Hincl).
  exists own. split; [exact Hown|]. intros x Hx.
  apply (Permutation_in _ (Permutation_sym (sort_by_date_perm all))).
  now apply Hincl.
Qed.

(** X12.  Nothing is invented: every returned occurrence carries the id,
    description, amount, comment and labels of an event of the store that
    the label filter keeps, and its [is_recurring] flag is that of the
    event. *)
Theorem every_occurrence_comes_from_a_kept_event fuel evs start_date end_date
    label_filter occs :
  get_events_in_range fuel evs start_date end_date label_filter = Ok occs ->
  Forall (fun o =>
            exists ev, In ev evs /\
                       passes_label_filter label_filter ev = true /\
                       occurrence_of ev o) occs.
Proof. apply get_events_in_range_provenance. Qed.

(** X13.  A recurring event without recurrence start that the label filter
    keeps aborts the whole request: when the events before it are well
    formed, [calculate_balance_timeline] raises [TypeError] and returns no
    timeline, whatever events follow. *)
Theorem missing_recurrence_start_aborts_timeline fuel before bad after
    start_date end_date (starting : Amount) label_filter :
  valid_date start_date -> valid_date end_date ->
  Forall expandable before ->
  (collect_fuel before start_date end_date <= fuel)%nat ->
  passes_label_filter label_filter bad = true ->
  is_recurring bad = true -> recurrence_start bad = None ->
  calculate_balance_timeline fuel (before ++ bad :: after) start_date end_date
                             starting label_filter
  = Raise TypeError.
Proof.
  intros Hs He Hwf Hfuel Hpass Hr Hnone.
  unfold calculate_balance_timeline, get_events_in_range.
  rewrite collect_app.
  destruct (collect_terminates fuel start_date end_date label_filter Hs He
              before [] Hwf Hfuel) as (acc & ->).
  rewrite bind_Ok. simpl. rewrite Hpass, Hr. simpl.
  unfold expand_recurring_event. rewrite Hnone. reflexivity.
Qed.

End AggregatorProperties.

Section TimelineProperties.

Context {Amount : Type} `{Numeric Amount} `{DateFormat}.

Implicit Types (o : occurrence Amount) (occs : list (occurrence Amount)).

(** After each day of the walk the running balance holds the amounts of
    the occurrences applied on the days walked so far. *)
Lemma walk_points occs (start_dt end_dt : datetime) (starting : Amount) :
  valid_date start_dt ->
  let settled (pt : timeline_point Amount) :=
    tp_balance pt =
    round2 (apply_events
              (flat_map (applied_on occs) (window_days start_dt (tp_date pt)))
              starting) in
  forall fuel current (b : Amount) tl tl' b',
    valid_date current -> toordinal start_dt <= toordinal current ->
    b = apply_events
          (flat_map (applied_on occs)
             (days_from start_dt
                (Z.to_nat (toordinal current - toordinal start_dt))))
          starting ->
    Forall settled tl ->
    walk fuel (group_by_date occs) end_dt current b tl = Ok (tl', b') ->
    Forall settled tl'.
Proof.
  intros Hs settled.
  induction fuel as [|fuel IH]; simpl;
    intros current b tl tl' b' Hc Hle Hb Htl Hrun.
  - discriminate.
  - destruct (dt_leb current end_dt); [|now injection Hrun as <- _].
    rewrite todays_events, add_days_1 in Hrun.
    assert (Hb' : apply_events (applied_on occs current) b =
                  apply_events
                    (flat_map (applied_on occs) (window_days start_dt current))
                    starting).
    { rewrite window_days_snoc, flat_map_app, apply_events_app, <- Hb
        by assumption.
      cbn [flat_map]. now rewrite app_nil_r. }
    apply IH in Hrun; [exact Hrun|now apply next_day_valid| | |].
    + rewrite next_day_toordinal by assumption. lia.
    + rewrite Hb'. do 2 f_equal. unfold window_days. f_equal.
      rewrite next_day_toordinal by assumption. lia.
    + apply Forall_app. split; [exact Htl|].
      apply Forall_singleton. unfold settled. simpl. now rewrite Hb'.
Qed.

(** X14.  Every timeline point carries the rounded sum of the starting
    balance and the amounts of the returned occurrences applied on the days
    from the window start up to the point's day, an occurrence being
    applied on the day whose formatted date equals its ['date'] string;
    the ending balance is the same sum over all the days of the window.
    Rounding is applied to the emitted values only, never to the running
    total, and an occurrence whose ['date'] string is the formatted date of
    no day of the window is never added. *)
Theorem timeline_point_balances fuel evs start_date end_date
    (starting : Amount) label_filter r :
  valid_date start_date ->
  calculate_balance_timeline fuel evs start_date end_date starting label_filter
    = Ok r ->
  Forall (fun pt =>
            tp_balance pt =
            round2 (fold_left amount_add
                      (map occ_amount
                         (flat_map (applied_on (events r))
                                   (window_days start_date (tp_date pt))))
                      starting)) (timeline r) /\
  (valid_date end_date ->
   ending_balance r =
   round2 (fold_left amount_add
             (map occ_amount
                (flat_map (applied_on (events r))
                          (window_days start_date end_date)))
             starting)).
Proof.
  intros Hs Hrun.
  apply calculate_balance_timeline_inv in Hrun as (occs & tl & b & Hocc & Hw & ->).
  simpl. split.
  - pose proof (walk_points occs start_date end_date starting Hs fuel start_date
                  starting [] tl b Hs) as Hpts.
    simpl in Hpts.
    eapply Forall_impl; [apply Hpts; [lia| |constructor|exact Hw]|].
    + now rewrite Z.sub_diag.
    + intros pt Hpt. simpl in Hpt. now rewrite <- apply_events_amounts.
  - intros He. rewrite <- apply_events_amounts. f_equal.
    eapply walk_applied; eassumption.
Qed.

End TimelineProperties.

(** ** The label filter of a timeline request *)

Lemma split_on_not_nil (sep : ascii) (s : string) : split_on sep s <> [].
Proof.
  destruct s as [|c rest]; simpl; [discriminate|].
  destruct (Ascii.eqb c sep); [discriminate|].
  destruct (split_on sep rest); discriminate.
Qed.

Lemma split_on_no_sep (sep : ascii) (s : string) :
  Forall (fun piece => has_char sep piece = false) (split_on sep s).
Proof.
  induction s as [|c rest IH]; simpl.
  - repeat constructor.
  - destruct (Ascii.eqb c sep) eqn:Hc.
    + constructor; [reflexivity|exact IH].
    + destruct (split_on sep rest) as [|piece pieces].
      * repeat constructor. simpl. now rewrite Hc.
      * apply Forall_cons in IH as [Hp Hps].
        constructor; [|exact Hps]. simpl. now rewrite Hc, Hp.
Qed.

Lemma concat_cons2 (sep x y : string) (l : list string) :
  String.concat sep (x :: y :: l) =
  String.append x (String.append sep (String.concat sep (y :: l))).
Proof. reflexivity. Qed.

Lemma split_on_join (sep : ascii) (s : string) :
  String.concat (String sep EmptyString) (split_on sep s) = s.
Proof.
  induction s as [|c rest IH]; simpl; [reflexivity|].
  pose proof (split_on_not_nil sep rest) as Hnn.
  destruct (split_on sep rest) as [|piece pieces]; [contradiction|].
  destruct (Ascii.eqb_spec c sep) as [->|Hne].
  - rewrite concat_cons2, IH. reflexivity.
  - destruct pieces as [|piece' pieces'].
    + simpl in *. now rewrite IH.
    + rewrite concat_cons2 in *. rewrite <- IH. reflexivity.
Qed.

Lemma has_char_true_not_false (c : ascii) (l : string) (ls : list string) :
  has_char c l = false ->
  Forall (fun l' => has_char c l' = true) ls ->
  bool_decide (l ∈ ls) = false.
Proof.
  intros Hl Hls. apply bool_decide_eq_false. intros Hin.
  rewrite List.Forall_forall in Hls.
  apply list_elem_of_In in Hin. specialize (Hls l Hin). congruence.
Qed.

Lemma timeline_label_filter_cons (v : string) (values : list string) :
  timeline_label_filter (v :: values) =
  if String.eqb v "" then timeline_label_filter values
  else Some (split_on ","%char v).
Proof.
  unfold timeline_label_filter, labels_param. simpl.
  destruct (String.eqb v "") eqn:Hv; simpl; [reflexivity|]. now rewrite Hv.
Qed.

(** X15.  Of the values that a timeline request gives to [labels],
    [parse_qs] drops the blank ones, so the label filter passed on is
    absent exactly when every value is blank (no value among them);
    otherwise it is the first value that is not blank, cut at its commas:
    it is never the empty list, none of its labels contains a comma, and
    joining them with commas gives the value back.  The values after it
    are not read. *)
Theorem request_label_filter_splits_first_value (values : list string) :
  (timeline_label_filter values = None <->
   Forall (fun v => v = EmptyString) values) /\
  (forall lf,
      timeline_label_filter values = Some lf ->
      lf <> [] /\
      Forall (fun label => has_char ","%char label = false) lf /\
      exists blanks first rest,
        values = blanks ++ first :: rest /\
        Forall (fun v => v = EmptyString) blanks /\
        first <> EmptyString /\
        String.concat "," lf = first).
Proof.
  induction values as [|v values [IHnone IHsome]].
  - split; [split; [constructor|reflexivity]|discriminate].
  - rewrite timeline_label_filter_cons.
    destruct (String.eqb_spec v "") as [->|Hne].
    + split.
      * rewrite IHnone. split; [now constructor|].
        intros Hall. now apply Forall_cons in Hall as [_ Hall].
      * intros lf Hlf.
        destruct (IHsome lf Hlf)
          as (Hnn & Hnc & blanks & first & rest & -> & Hb & Hf & Hjoin).
        split; [exact Hnn|]. split; [exact Hnc|].
        exists (EmptyString :: blanks), first, rest.
        split; [reflexivity|]. split; [now constructor|]. now split.
    + split.
      * split; [discriminate|]. intros Hall.
        apply Forall_cons in Hall as [Hv _]. contradiction.
      * intros lf [= <-]. split; [apply split_on_not_nil|].
        split; [apply split_on_no_sep|].
        exists [], v, values. split; [reflexivity|]. split; [constructor|].
        split; [exact Hne|]. apply (split_on_join ","%char).
Qed.

(** X16.  Labels that contain a comma cannot be selected through the HTTP
    interface: when a request carries a label filter, an event all of whose
    labels contain a comma (an event without labels among them) is
    dropped. *)
Theorem comma_labels_never_match {Amount : Type} (labels : list string)
    (lf : list string) (ev : event Amount) :
  request_label_filter labels = Some lf ->
  Forall (fun label => has_char ","%char label = true) (ev_labels ev) ->
  passes_label_filter (Some lf) ev = false.
Proof.
  intros Hreq Hev.
  assert (Hpieces : lf <> [] /\
                    Forall (fun label => has_char ","%char label = false) lf).
  { unfold request_label_filter in Hreq.
    destruct labels as [|first rest]; [discriminate|].
    destruct (String.eqb first ""); [discriminate|].
    injection Hreq as <-. split; [apply split_on_not_nil|apply split_on_no_sep]. }
  destruct Hpieces as [Hnn Hnc]. unfold passes_label_filter.
  destruct lf as [|l0 lf']; [congruence|].
  apply not_true_iff_false. rewrite existsb_exists.
  intros (label & Hin & Hdec).
  rewrite List.Forall_forall in Hnc.
  rewrite (has_char_true_not_false _ _ _ (Hnc label Hin) Hev) in Hdec.
  discriminate.
Qed.

(** ** The UPDATE statement of [update_event] *)

Section UpdateStatement.

Context {V : Type}.

Lemma collect_updates_fold (kwargs : list (string * V)) :
  forall updates values,
    fold_left
      (fun '(updates, values) '(key, value) =>
         if bool_decide (key ∈ allowed_fields)
         then (updates ++ [String.append key " = ?"],
               values ++ [ParamValue value])
         else (updates, values))
      kwargs (updates, values)
    = (updates ++ map (fun kv => String.append (fst kv) " = ?") (kept_items kwargs),
       values ++ map (fun kv => ParamValue (snd kv)) (kept_items kwargs)).
Proof.
  induction kwargs as [|[key value] rest IH]; intros updates values; simpl.
  - now rewrite !app_nil_r.
  - destruct (bool_decide (key ∈ allowed_fields)); simpl.
    + rewrite IH, <- !app_assoc. reflexivity.
    + apply IH.
Qed.

Lemma collect_updates_kept (kwargs : list (string * V)) :
  collect_updates kwargs =
  (map (fun kv => String.append (fst kv) " = ?") (kept_items kwargs),
   map (fun kv => ParamValue (snd kv)) (kept_items kwargs)).
Proof. unfold collect_updates. now rewrite collect_updates_fold. Qed.

Lemma count_char_append (c : ascii) (s1 s2 : string) :
  count_char c (String.append s1 s2) = (count_char c s1 + count_char c s2)%nat.
Proof. induction s1 as [|c' s1 IH]; simpl; [reflexivity|]. rewrite IH. lia. Qed.

Lemma count_char_concat (c : ascii) (sep : string) (l : list string) :
  count_char c sep = O ->
  Forall (fun u => count_char c u = 1%nat) l ->
  count_char c (String.concat sep l) = List.length l.
Proof.
  intros Hsep. induction 1 as [|u l Hu Hl IH]; [reflexivity|].
  destruct l as [|u' l']; [simpl; exact Hu|].
  change (String.concat sep (u :: u' :: l'))
    with (String.append u (String.append sep (String.concat sep (u' :: l')))).
  rewrite !count_char_append, Hu, Hsep, IH. reflexivity.
Qed.

Lemma allowed_fields_no_placeholder :
  Forall (fun key => count_char "?"%char key = O) allowed_fields.
Proof. repeat constructor. Qed.

Lemma kept_items_allowed (kwargs : list (string * V)) :
  Forall (fun kv => In (fst kv) allowed_fields) (kept_items kwargs).
Proof.
  apply List.Forall_forall. intros kv Hin.
  apply filter_In in Hin as [_ Hdec].
  apply bool_decide_eq_true in Hdec. now apply list_elem_of_In.
Qed.

End UpdateStatement.

(** X17.  [update_event] executes no UPDATE when none of the keyword
    arguments is an allowed field.  Otherwise the statement sets exactly
    the allowed fields among the arguments, in their order, each to a
    placeholder; no other key (such as [id] or [labels]) reaches the SQL
    text; and the statement has as many placeholders as parameters, the
    last parameter being the event id. *)
Theorem update_statement_matches_its_parameters {V : Type} (event_id : Z)
    (kwargs : list (string * V)) :
  (update_statement event_id kwargs = None <->
   Forall (fun kv => ~ In (fst kv) allowed_fields) kwargs) /\
  (forall query params,
      update_statement event_id kwargs = Some (query, params) ->
      query = String.append "UPDATE account_events SET "
                (String.append
                   (String.concat ", "
                      (map (fun kv => String.append (fst kv) " = ?")
                           (kept_items kwargs)))
                   " WHERE id = ?") /\
      params = map (fun kv => ParamValue (snd kv)) (kept_items kwargs)
               ++ [ParamId event_id] /\
      Forall (fun kv => In (fst kv) allowed_fields) (kept_items kwargs) /\
      count_char "?"%char query = List.length params).
Proof.
  unfold update_statement. rewrite collect_updates_kept.
  split.
  - split.
    + intros Hnone. apply List.Forall_forall. intros kv Hin Hallowed.
      assert (Hk : In kv (kept_items kwargs)).
      { apply filter_In. split; [exact Hin|].
        apply bool_decide_eq_true. now apply list_elem_of_In. }
      destruct (kept_items kwargs); [contradiction|discriminate].
    + intros Hall. rewrite List.Forall_forall in Hall.
      destruct (kept_items kwargs) as [|kv l] eqn:Hk; [reflexivity|].
      assert (Hin : In kv (kept_items kwargs)) by (rewrite Hk; now left).
      apply filter_In in Hin as [Hin Hdec].
      apply bool_decide_eq_true, list_elem_of_In in Hdec.
      now destruct (Hall kv Hin).
  - intros query params Hsome.
    pose proof (kept_items_allowed kwargs) as Hallowed.
    assert (Hqp :
              query = String.append "UPDATE account_events SET "
                        (String.append
                           (String.concat ", "
                              (map (fun kv => String.append (fst kv) " = ?")
                                   (kept_items kwargs)))
                           " WHERE id = ?") /\
              params = map (fun kv => ParamValue (snd kv)) (kept_items kwargs)
                       ++ [ParamId event_id]).
    { revert Hsome.
      generalize (map (fun kv : string * V => String.append (fst kv) " = ?")
                      (kept_items kwargs)) as updates.
      intros [|u us]; [discriminate|]. intros [= <- <-]. split; reflexivity. }
    destruct Hqp as [-> ->].
    split; [reflexivity|]. split; [reflexivity|]. split; [exact Hallowed|].
    rewrite !count_char_append, count_char_concat.
    + rewrite length_app, !length_map. simpl. lia.
    + reflexivity.
    + apply Forall_map. eapply Forall_impl; [exact Hallowed|].
      intros kv Hkv. simpl. rewrite count_char_append.
      pose proof allowed_fields_no_placeholder as Hno.
      rewrite List.Forall_forall in Hno. now rewrite (Hno _ Hkv).
Qed.

(** ** The further properties at concrete inputs *)

Example split_on_commas :
  split_on ","%char "rent,fixed,,x" = ["rent"; "fixed"; ""; "x"]%list.
Proof. reflexivity. Qed.

Example update_statement_sample :
  update_statement 7 [("amount", 12); ("id", 99); ("comment", 0)]%list
  = Some ("UPDATE account_events SET amount = ?, comment = ? WHERE id = ?",
          [ParamValue 12; ParamValue 0; ParamId 7]).
Proof. vm_compute. reflexivity. Qed.

Ltac run := vm_compute; reflexivity.
Ltac positive_interval := vm_compute; discriminate.

Lemma expansion_strictly_increasing_witness :
  exists occs,
    expand_recurring_event 10
      (sample_event "weekly" (Some 1) (Some (ymd 2024 12 4)) None)
      (ymd 2025 1 1) (ymd 2025 1 31) = Ok occs /\
    NoDup (map occ_date occs).
Proof.
  eexists. split; [run|].
  refine (proj2 (expansion_strictly_increasing 10
                   (sample_event "weekly" (Some 1) (Some (ymd 2024 12 4)) None)
                   (ymd 2024 12 4) (ymd 2025 1 1) (ymd 2025 1 31) _
                   eq_refl _ _ _)).
  - concrete_date.
  - positive_interval.
  - run.
Defined.

Lemma occurrences_between_recurrence_bounds_witness :
  exists occs,
    expand_recurring_event 10
      (sample_event "weekly" (Some 1) (Some (ymd 2025 1 8))
                    (Some (ymd 2025 1 20)))
      (ymd 2025 1 1) (ymd 2025 1 31) = Ok occs /\
    Forall (fun o => dt_leb (occ_date o) (ymd 2025 1 20) = true) occs /\
    Forall (fun o => dt_leb (ymd 2025 1 8) (occ_date o) = true) occs.
Proof.
  eexists. split; [run|].
  destruct (occurrences_between_recurrence_bounds 10
              (sample_event "weekly" (Some 1) (Some (ymd 2025 1 8))
                            (Some (ymd 2025 1 20)))
              (ymd 2025 1 1) (ymd 2025 1 31) _ ltac:(run)) as [Hend Hstart].
  split; [exact (Hend (ymd 2025 1 20) eq_refl)|].
  apply (Hstart (ymd 2025 1 8) eq_refl).
  - concrete_date.
  - positive_interval.
Defined.

Lemma first_occurrence_is_recurrence_start_witness :
  exists occs rest,
    expand_recurring_event 6 monthly_jan31 (ymd 2024 1 1) (ymd 2024 4 30)
      = Ok occs /\
    occs = recurring_occurrence monthly_jan31 (ymd 2024 1 31) :: rest.
Proof.
  eexists.
  assert (Hrun : expand_recurring_event 6 monthly_jan31 (ymd 2024 1 1)
                   (ymd 2024 4 30) = Ok _) by run.
  destruct (first_occurrence_is_recurrence_start 6 monthly_jan31
              (ymd 2024 1 31) (ymd 2024 1 1) (ymd 2024 4 30) _
              eq_refl eq_refl eq_refl Hrun) as [rest Hrest].
  exists rest. split; [exact Hrun|exact Hrest].
Defined.

Lemma fast_forward_is_an_optimisation_witness :
  exists occs,
    expand_recurring_event 10
      (sample_event "weekly" (Some 1) (Some (ymd 2024 12 4)) None)
      (ymd 2025 1 1) (ymd 2025 1 31) = Ok occs /\
    emit 20 (sample_event "weekly" (Some 1) (Some (ymd 2024 12 4)) None)
         "weekly" 1 (ymd 2025 1 1) (ymd 2025 1 31) (ymd 2025 1 31)
         (ymd 2024 12 4) [] = Ok occs.
Proof.
  eexists. split; [run|].
  refine (fast_forward_is_an_optimisation 10
            (sample_event "weekly" (Some 1) (Some (ymd 2024 12 4)) None)
            (ymd 2024 12 4) (ymd 2025 1 1) (ymd 2025 1 31) _ eq_refl _ _ _).
  - concrete_date.
  - positive_interval.
  - run.
Defined.

Lemma day_patterns_keep_spacing_witness :
  exists occs,
    expand_recurring_event 10
      (sample_event "weekly" (Some 2) (Some (ymd 2024 12 4)) None)
      (ymd 2025 1 1) (ymd 2025 1 31) = Ok occs /\
    Forall (fun o => toordinal (occ_date o) mod 7 = toordinal (ymd 2024 12 4) mod 7)
           occs.
Proof.
  eexists. split; [run|].
  eapply Forall_impl.
  - refine (day_patterns_keep_spacing 10
              (sample_event "weekly" (Some 2) (Some (ymd 2024 12 4)) None)
              (ymd 2024 12 4) (ymd 2025 1 1) (ymd 2025 1 31) _ 14
              eq_refl _ _ _).
    + concrete_date.
    + right. left. split; reflexivity.
    + run.
  - intros o [_ Hweek]. apply Hweek. discriminate.
Defined.

Lemma month_patterns_keep_day_witness :
  exists occs,
    expand_recurring_event 10
      (sample_event "monthly" (Some 1) (Some (ymd 2024 11 15)) None)
      (ymd 2025 1 1) (ymd 2025 3 31) = Ok occs /\
    Forall (fun o => day (occ_date o) = 15) occs.
Proof.
  eexists. split; [run|].
  eapply Forall_impl.
  - refine (month_patterns_keep_day 10
              (sample_event "monthly" (Some 1) (Some (ymd 2024 11 15)) None)
              (ymd 2024 11 15) (ymd 2025 1 1) (ymd 2025 3 31) _
              eq_refl _ _ _).
    + concrete_date.
    + left. reflexivity.
    + run.
  - intros o (_ & Hsame & _). apply Hsame. simpl. lia.
Defined.

Lemma patterns_reduce_to_monthly_and_daily_witness :
  expand_recurring_event 10
    (sample_event "quarterly" (Some 1) (Some (ymd 2024 1 31)) None)
    (ymd 2024 1 1) (ymd 2024 12 31) =
  expand_recurring_event 10
    (with_pattern "monthly"
       (with_interval (Some (3 * 1))
          (sample_event "quarterly" (Some 1) (Some (ymd 2024 1 31)) None)))
    (ymd 2024 1 1) (ymd 2024 12 31).
Proof.
  refine (proj1 (patterns_reduce_to_monthly_and_daily 10
                   (sample_event "quarterly" (Some 1) (Some (ymd 2024 1 31)) None)
                   (ymd 2024 1 1) (ymd 2024 12 31) 1 eq_refl _) eq_refl).
  discriminate.
Defined.

Lemma narrower_window_restricts_expansion_witness :
  exists occs occs',
    expand_recurring_event 10
      (sample_event "weekly" (Some 1) (Some (ymd 2024 12 4)) None)
      (ymd 2025 1 1) (ymd 2025 1 31) = Ok occs /\
    expand_recurring_event 10
      (sample_event "weekly" (Some 1) (Some (ymd 2024 12 4)) None)
      (ymd 2025 1 10) (ymd 2025 1 20) = Ok occs' /\
    occs' = filter (fun o => dt_leb (ymd 2025 1 10) (occ_date o) = true /\
                             dt_leb (occ_date o) (ymd 2025 1 20) = true) occs.
Proof.
  eexists. eexists. split; [run|]. split; [run|].
  refine (narrower_window_restricts_expansion 10 10
            (sample_event "weekly" (Some 1) (Some (ymd 2024 12 4)) None)
            (ymd 2024 12 4) (ymd 2025 1 1) (ymd 2025 1 31)
            (ymd 2025 1 10) (ymd 2025 1 20) _ _
            eq_refl _ _ eq_refl eq_refl _ _).
  - concrete_date.
  - positive_interval.
  - run.
  - run.
Defined.

Lemma events_are_sorted_stably_witness :
  exists occs,
    get_events_in_range 10 same_day_store (ymd 2025 1 1) (ymd 2025 1 15) None
      = Ok occs /\
    StronglySorted date_str_le occs /\
    filter (fun o => occ_date_str o = "2025-01-08") occs =
    [one_off_occurrence (sample_one_off 70 (ymd 2025 1 8)) (ymd 2025 1 8);
     recurring_occurrence
       (sample_event "weekly" (Some 1) (Some (ymd 2024 12 4)) None)
       (ymd 2025 1 8);
     one_off_occurrence (sample_one_off (-20) (ymd 2025 1 8)) (ymd 2025 1 8)].
Proof.
  assert (Hrun : exists occs,
             get_events_in_range 10 same_day_store (ymd 2025 1 1)
               (ymd 2025 1 15) None = Ok occs) by (eexists; run).
  destruct Hrun as [occs Hrun]. exists occs. split; [exact Hrun|].
  destruct (events_are_sorted_stably 10 same_day_store (ymd 2025 1 1)
              (ymd 2025 1 15) None occs Hrun)
    as (all & Hc & _ & Hsorted & Hstable).
  split; [exact Hsorted|]. rewrite Hstable.
  assert (Hall :
    collect 10 same_day_store (ymd 2025 1 1) (ymd 2025 1 15) None [] =
    Ok [one_off_occurrence (sample_one_off 70 (ymd 2025 1 8)) (ymd 2025 1 8);
        recurring_occurrence
          (sample_event "weekly" (Some 1) (Some (ymd 2024 12 4)) None)
          (ymd 2025 1 1);
        recurring_occurrence
          (sample_event "weekly" (Some 1) (Some (ymd 2024 12 4)) None)
          (ymd 2025 1 8);
        recurring_occurrence
          (sample_event "weekly" (Some 1) (Some (ymd 2024 12 4)) None)
          (ymd 2025 1 15);
        one_off_occurrence (sample_one_off (-20) (ymd 2025 1 8))
          (ymd 2025 1 8)]) by run.
  rewrite Hall in Hc. injection Hc as <-. run.
Defined.

Lemma one_off_event_included_iff_in_window_witness :
  exists occs,
    get_events_in_range 10 january_store (ymd 2025 1 1) (ymd 2025 1 31) None
      = Ok occs /\
    In (one_off_occurrence (sample_one_off (-50) (ymd 2025 1 2)) (ymd 2025 1 2))
       occs.
Proof.
  eexists. split; [run|].
  refine (proj2 (one_off_event_included_iff_in_window 10 january_store
                   (sample_one_off (-50) (ymd 2025 1 2)) (ymd 2025 1 2)
                   (ymd 2025 1 1) (ymd 2025 1 31) None _
                   _ eq_refl eq_refl eq_refl _) _).
  - left. reflexivity.
  - run.
  - split; reflexivity.
Defined.

Lemma recurring_event_contributes_its_expansion_witness :
  exists occs own,
    get_events_in_range 10 january_store (ymd 2025 1 1) (ymd 2025 1 31) None
      = Ok occs /\
    expand_recurring_event 10
      (sample_event "weekly" (Some 1) (Some (ymd 2024 12 4)) None)
      (ymd 2025 1 1) (ymd 2025 1 31) = Ok own /\
    incl own occs.
Proof.
  eexists.
  assert (Hrun : get_events_in_range 10 january_store (ymd 2025 1 1)
                   (ymd 2025 1 31) None = Ok _) by run.
  destruct (recurring_event_contributes_its_expansion 10 january_store
              (sample_event "weekly" (Some 1) (Some (ymd 2024 12 4)) None)
              (ymd 2025 1 1) (ymd 2025 1 31) None _
              ltac:(right; left; reflexivity) eq_refl eq_refl Hrun)
    as (own & Hown & Hincl).
  exists own. split; [exact Hrun|]. split; [exact Hown|exact Hincl].
Defined.

Lemma every_occurrence_comes_from_a_kept_event_witness :
  exists occs,
    get_events_in_range 10 january_store (ymd 2025 1 1) (ymd 2025 1 31)
      (Some ["food"]%list) = Ok occs /\
    Forall (fun o =>
              exists ev, In ev january_store /\
                         passes_label_filter (Some ["food"]%list) ev = true /\
                         occurrence_of ev o) occs.
Proof.
  eexists. split; [run|].
  refine (every_occurrence_comes_from_a_kept_event 10 january_store
            (ymd 2025 1 1) (ymd 2025 1 31) (Some ["food"]%list) _ _).
  run.
Defined.

Lemma missing_recurrence_start_aborts_timeline_witness :
  recurrence_start (sample_event "daily" (Some 1) None None) = None /\
  calculate_balance_timeline 10
    ([sample_one_off (-50) (ymd 2025 1 2)]
       ++ sample_event "daily" (Some 1) None None
       :: [sample_one_off 20 (ymd 2025 1 3)])
    (ymd 2025 1 1) (ymd 2025 1 3) 1000 None
  = Raise TypeError.
Proof.
  split; [reflexivity|].
  refine (missing_recurrence_start_aborts_timeline 10
            [sample_one_off (-50) (ymd 2025 1 2)]
            (sample_event "daily" (Some 1) None None)
            [sample_one_off 20 (ymd 2025 1 3)]
            (ymd 2025 1 1) (ymd 2025 1 3) 1000 None
            _ _ _ _ eq_refl eq_refl eq_refl).
  - concrete_date.
  - concrete_date.
  - constructor; [apply one_off_expandable|constructor].
  - vm_compute. lia.
Defined.

Lemma timeline_point_balances_witness :
  exists r,
    calculate_balance_timeline 5
      [sample_one_off (-50) (ymd 2025 1 2); midnight_one_off]
      (ymd 2025 1 1) (ymd 2025 1 3) 1000 None = Ok r /\
    Forall (fun pt =>
              tp_balance pt =
              round2 (fold_left amount_add
                        (map occ_amount
                           (flat_map (applied_on (events r))
                                     (window_days (ymd 2025 1 1) (tp_date pt))))
                        1000)) (timeline r) /\
    ending_balance r =
    round2 (fold_left amount_add
              (map occ_amount
                 (flat_map (applied_on (events r))
                           (window_days (ymd 2025 1 1) (ymd 2025 1 3))))
              1000).
Proof.
  eexists. split; [run|].
  destruct (timeline_point_balances 5
              [sample_one_off (-50) (ymd 2025 1 2); midnight_one_off]
              (ymd 2025 1 1) (ymd 2025 1 3) 1000 None _
              ltac:(concrete_date) ltac:(run)) as [Hpoints Hend].
  split; [exact Hpoints|]. apply Hend. concrete_date.
Defined.

Lemma request_label_filter_splits_first_value_witness :
  timeline_label_filter [""; "rent,fixed"; "other"]%list
    = Some ["rent"; "fixed"]%list /\
  String.concat "," ["rent"; "fixed"]%list = "rent,fixed".
Proof.
  split; [reflexivity|].
  destruct (proj2 (request_label_filter_splits_first_value
                     [""; "rent,fixed"; "other"]%list)
              ["rent"; "fixed"]%list eq_refl)
    as (_ & _ & blanks & first & rest & Heq & Hblanks & Hfirst & Hjoin).
  destruct Hblanks as [|blank blanks Hblank Hblanks].
  - injection Heq as <- _. contradiction.
  - destruct Hblanks as [|blank' blanks' Hblank' _].
    + injection Heq as _ <- _. exact Hjoin.
    + subst blank'. destruct blanks'; discriminate.
Defined.

Lemma comma_labels_never_match_witness :
  request_label_filter ["a,b"]%list = Some ["a"; "b"]%list /\
  passes_label_filter (Some ["a"; "b"]%list)
    {| ev_id := 3; ev_description := "odd"; ev_amount := 1;
       event_date := Some (ymd 2025 1 2); event_date_str := "2025-01-02";
       is_recurring := false;
       recurrence_pattern := ""; recurrence_interval := None;
       recurrence_start := None; recurrence_end := None;
       ev_comment := None; ev_labels := ["a,b"]%list |} = false.
Proof.
  split; [reflexivity|].
  apply (comma_labels_never_match ["a,b"]%list); [reflexivity|].
  repeat constructor.
Defined.

Lemma update_statement_matches_its_parameters_witness :
  update_statement 7 [("amount", 12); ("id", 99); ("comment", 0)]%list
  = Some ("UPDATE account_events SET amount = ?, comment = ? WHERE id = ?",
          [ParamValue 12; ParamValue 0; ParamId 7]) /\
  count_char "?"%char
    "UPDATE account_events SET amount = ?, comment = ? WHERE id = ?" = 3%nat.
Proof.
  split; [run|].
  exact (proj2 (proj2 (proj2
           (proj2 (update_statement_matches_its_parameters 7
                     [("amount", 12); ("id", 99); ("comment", 0)]%list)
                  _ _ ltac:(run))))).
Defined.

(** ** Events outside their period of activity; narrower queries *)

Section WindowProperties.

Context {Amount : Type} `{DateFormat}.

Implicit Types (ev : event Amount) (evs : list (event Amount)).
Implicit Types (o : occurrence Amount) (occs : list (occurrence Amount)).

Lemma Forall_False_nil occs : Forall (fun _ => False) occs -> occs = [].
Proof. destruct 1; [reflexivity|contradiction]. Qed.

(** X18.  A recurring event contributes no occurrence when its recurrence
    end is before the window start, whatever its interval, and, with an
    interval of at least 1, when its recurrence start is after the window
    end or after its own recurrence end. *)
Theorem inactive_event_contributes_nothing fuel ev rec_start start_date
    end_date occs :
  recurrence_start ev = Some rec_start ->
  (exists rec_end, recurrence_end ev = Some rec_end /\
                   dt_ltb rec_end start_date = true) \/
  (valid_date rec_start /\ 1 <= effective_interval ev /\
   dt_ltb (dt_min (default end_date (recurrence_end ev)) end_date) rec_start
     = true) ->
  expand_recurring_event fuel ev start_date end_date = Ok occs ->
  occs = [].
Proof.
  intros Hs Hcase Hrun. apply Forall_False_nil.
  destruct Hcase as [(rec_end & Hre & Hbefore)|(Hv & Hi & Hafter)].
  - apply expand_dates in Hrun. rewrite Hre in Hrun. simpl in Hrun.
    eapply Forall_impl; [exact Hrun|]. intros o (H1 & _ & H3).
    pose proof (dt_leb_trans _ _ _ H1 H3) as Hle.
    apply dt_leb_false in Hbefore. congruence.
  - revert Hrun.
    apply (expand_preserves _
             (fun c => valid_date c /\ dt_leb rec_start c = true)).
    + intros c c' [Hc Hle] Hadv. split; [eapply advance_valid; eassumption|].
      apply dt_ltb_leb. eapply dt_leb_ltb_trans; [exact Hle|].
      eapply advance_ltb; eassumption.
    + intros rs Hrs. assert (rs = rec_start) as -> by congruence.
      split; [exact Hv|apply dt_leb_refl].
    + intros c [_ Hle] Hend _.
      pose proof (dt_leb_trans _ _ _ Hle Hend) as Hbad.
      apply dt_leb_false in Hafter. congruence.
Qed.

(** Filtering commutes with the stable sort. *)
Lemma insert_by_date_head o occs :
  Forall (date_str_le o) occs ->
  insert_by_date o occs = o :: occs.
Proof.
  destruct 1 as [|o' l Ho' _]; simpl; [reflexivity|].
  unfold date_str_le in Ho'. now rewrite Ho'.
Qed.

Lemma insert_by_date_filter (P : occurrence Amount -> Prop)
    `{forall o, Decision (P o)} o occs :
  StronglySorted date_str_le occs ->
  filter P (insert_by_date o occs) =
  if decide (P o) then insert_by_date o (filter P occs) else filter P occs.
Proof.
  induction 1 as [|o' l Hl IH Hall]; simpl.
  - rewrite filter_cons, filter_nil. destruct (decide (P o)); reflexivity.
  - destruct (String.leb (occ_date_str o) (occ_date_str o')) eqn:Hle.
    + rewrite (filter_cons P o). destruct (decide (P o)); [|reflexivity].
      rewrite insert_by_date_head; [reflexivity|].
      apply List.Forall_forall. intros y Hy.
      apply list_elem_of_In, list_elem_of_filter in Hy as [_ Hy].
      apply list_elem_of_In in Hy. destruct Hy as [<-|Hy]; [exact Hle|].
      rewrite List.Forall_forall in Hall.
      unfold date_str_le. eapply str_leb_trans; [exact Hle|]. exact (Hall y Hy).
    + rewrite (filter_cons P o'), IH, (filter_cons P o').
      destruct (decide (P o')); destruct (decide (P o)); try reflexivity.
      simpl. now rewrite Hle.
Qed.

Lemma sort_by_date_filter (P : occurrence Amount -> Prop)
    `{forall o, Decision (P o)} occs :
  filter P (sort_by_date occs) = sort_by_date (filter P occs).
Proof.
  induction occs as [|o l IH]; simpl; [reflexivity|].
  rewrite insert_by_date_filter by apply sort_by_date_sorted.
  rewrite filter_cons, IH. destruct (decide (P o)); reflexivity.
Qed.

Lemma collect_narrow fuel fuel' start_date end_date start_date' end_date'
    label_filter :
  dt_leb start_date start_date' = true -> dt_leb end_date' end_date = true ->
  forall evs all_occurrences result result',
    Forall expandable evs ->
    collect fuel evs start_date end_date label_filter all_occurrences
      = Ok result ->
    collect fuel' evs start_date' end_date' label_filter
      (filter (fun o => dt_leb start_date' (occ_date o) = true /\
                        dt_leb (occ_date o) end_date' = true) all_occurrences)
      = Ok result' ->
    result' = filter (fun o => dt_leb start_date' (occ_date o) = true /\
                               dt_leb (occ_date o) end_date' = true) result.
Proof.
  intros Hss Hee.
  set (w := fun o : occurrence Amount =>
              dt_leb start_date' (occ_date o) = true /\
              dt_leb (occ_date o) end_date' = true).
  induction evs as [|ev rest IH]; intros acc result result' Hwf Hwide Hnarrow.
  - simpl in *. injection Hwide as <-. now injection Hnarrow as <-.
  - apply Forall_cons in Hwf as [Hev Hrest]. simpl in Hwide, Hnarrow.
    destruct (passes_label_filter label_filter ev); simpl in Hwide, Hnarrow;
      [|eauto].
    destruct (is_recurring ev) eqn:Hr.
    + apply bind_Ok_inv in Hwide as (own & Hown & Hwide).
      apply bind_Ok_inv in Hnarrow as (own' & Hown' & Hnarrow).
      destruct (Hev Hr) as (rec_start & Hrs & Hv & Hi).
      pose proof (expand_narrow fuel fuel' ev rec_start start_date end_date
                    start_date' end_date' own own' Hrs Hv Hi Hss Hee Hown Hown')
        as ->.
      fold w in Hnarrow. rewrite <- filter_app in Hnarrow. eauto.
    + destruct (event_date ev) as [d|]; [|eauto].
      destruct (dt_leb start_date' d && dt_leb d end_date') eqn:Hn.
      * apply andb_true_iff in Hn as [Hn1 Hn2].
        rewrite (dt_leb_trans _ _ _ Hss Hn1), (dt_leb_trans _ _ _ Hn2 Hee)
          in Hwide.
        simpl in Hwide. eapply IH; [exact Hrest|exact Hwide|].
        rewrite filter_app, (filter_cons_True w) by (split; assumption).
        exact Hnarrow.
      * assert (Hnot : ~ w (one_off_occurrence ev d)).
        { intros [H1 H2]. simpl in H1, H2. rewrite H1, H2 in Hn. discriminate. }
        destruct (dt_leb start_date d && dt_leb d end_date); [|eauto].
        eapply IH; [exact Hrest|exact Hwide|].
        rewrite filter_app, (filter_cons_False w), filter_nil, app_nil_r
          by assumption.
        exact Hnarrow.
Qed.

(** X19.  A query over a narrower window returns the occurrences of the
    wider query that fall in the narrower window, in the same order, when
    every recurring event has a recurrence start and an interval of at
    least 1. *)
Theorem narrower_window_restricts_query fuel fuel' evs start_date end_date
    start_date' end_date' label_filter occs occs' :
  Forall expandable evs ->
  dt_leb start_date start_date' = true -> dt_leb end_date' end_date = true ->
  get_events_in_range fuel evs start_date end_date label_filter = Ok occs ->
  get_events_in_range fuel' evs start_date' end_date' label_filter = Ok occs' ->
  occs' = filter (fun o => dt_leb start_date' (occ_date o) = true /\
                           dt_leb (occ_date o) end_date' = true) occs.
Proof.
  intros Hwf Hss Hee Hwide Hnarrow.
  apply get_events_in_range_inv in Hwide as (all & Hc & ->).
  apply get_events_in_range_inv in Hnarrow as (all' & Hc' & ->).
  rewrite sort_by_date_filter. f_equal.
  eapply (collect_narrow fuel fuel' start_date end_date start_date' end_date'
            label_filter Hss Hee evs [] all all' Hwf Hc).
  exact Hc'.
Qed.

End WindowProperties.

(** ** The keyword arguments of an update request *)

Section UpdateData.

Context {V : Type} (float_of : V -> option V) (truthy : V -> bool)
        (of_int : Z -> V).

Lemma build_update_data_fold (data : gmap string V) (keys : list string) :
  forall items kwargs,
    fold_left
      (fun update_data key =>
         match update_data with
         | Some items =>
             match data !! key with
             | Some v =>
                 match convert_field float_of truthy of_int key v with
                 | Some v' => Some (items ++ [(key, v')])
                 | None => None
                 end
             | None => Some items
             end
         | None => None
         end)
      keys (Some items) = Some kwargs ->
    map fst kwargs = map fst items ++ List.filter (in_body data) keys.
Proof.
  induction keys as [|key rest IH]; intros items kwargs; simpl.
  - intros [= <-]. now rewrite app_nil_r.
  - unfold in_body at 1. destruct (data !! key) as [v|] eqn:Hk.
    + rewrite bool_decide_eq_true_2 by eauto.
      destruct (convert_field float_of truthy of_int key v) as [v'|].
      * intros Hrun. apply IH in Hrun.
        rewrite Hrun, map_app, <- app_assoc. reflexivity.
      * intros Hrun. exfalso. clear -Hrun.
        induction rest as [|k r IHr]; simpl in Hrun; [discriminate|auto].
    + rewrite bool_decide_eq_false_2 by (intros [? ?]; discriminate).
      apply IH.
Qed.

Lemma kept_items_keys (kwargs : list (string * V)) :
  map fst (kept_items kwargs) =
  List.filter (fun key => bool_decide (key ∈ allowed_fields)) (map fst kwargs).
Proof.
  induction kwargs as [|[key v] rest IH]; simpl; [reflexivity|].
  destruct (bool_decide (key ∈ allowed_fields)); simpl; now rewrite IH.
Qed.

Lemma filter_allowed_handler_fields (P : string -> bool) :
  List.filter (fun key => bool_decide (key ∈ allowed_fields))
              (List.filter P handler_fields)
  = List.filter P allowed_fields.
Proof.
  change handler_fields with (allowed_fields ++ ["labels"]).
  rewrite !List.filter_app.
  assert (H1 : forall l : list string,
             Forall (fun key => key ∈ allowed_fields) l ->
             List.filter (fun key => bool_decide (key ∈ allowed_fields))
                         (List.filter P l) = List.filter P l).
  { induction 1 as [|k l Hk _ IH]; simpl; [reflexivity|].
    destruct (P k); simpl; [|exact IH].
    rewrite bool_decide_eq_true_2 by assumption. now rewrite IH. }
  rewrite H1.
  - simpl. destruct (P "labels"); simpl; now rewrite app_nil_r.
  - apply Forall_forall. auto.
Qed.

(** X20.  Of a request body, [handle_update_event] forwards the keys among
    its ten known names, in its own fixed order, and nothing else; the
    UPDATE that [update_event] then builds sets exactly the allowed fields
    present in the body, and none is executed exactly when the body holds
    none of them.  So no key of the body is dropped by the allow-list except
    [labels], and no other key, such as [id], is ever updated. *)
Theorem update_request_sets_the_fields_of_the_body (data : gmap string V)
    (kwargs : list (string * V)) (event_id : Z) :
  build_update_data float_of truthy of_int data = Some kwargs ->
  map fst kwargs = List.filter (in_body data) handler_fields /\
  map fst (kept_items kwargs) = List.filter (in_body data) allowed_fields /\
  (update_statement event_id kwargs = None <->
   forall key, In key allowed_fields -> data !! key = None).
Proof.
  intros Hrun. unfold build_update_data in Hrun.
  apply build_update_data_fold in Hrun. cbn [map app] in Hrun.
  assert (Hkept : map fst (kept_items kwargs) =
                  List.filter (in_body data) allowed_fields).
  { now rewrite kept_items_keys, Hrun, filter_allowed_handler_fields. }
  split; [exact Hrun|]. split; [exact Hkept|].
  unfold update_statement. rewrite collect_updates_kept. split.
  - intros Hnone key Hkey.
    destruct (data !! key) as [v|] eqn:Hv; [|reflexivity]. exfalso.
    assert (Hin : In key (List.filter (in_body data) allowed_fields)).
    { apply filter_In. split; [exact Hkey|].
      unfold in_body. apply bool_decide_eq_true. rewrite Hv. eauto. }
    rewrite <- Hkept in Hin.
    destruct (kept_items kwargs); [contradiction|discriminate].
  - intros Hall.
    destruct (kept_items kwargs) as [|kv l] eqn:Hk; [reflexivity|]. exfalso.
    assert (Hin : In (fst kv) (List.filter (in_body data) allowed_fields))
      by (rewrite <- Hkept; now left).
    apply filter_In in Hin as [Hkey Hbody].
    unfold in_body in Hbody. apply bool_decide_eq_true in Hbody.
    rewrite (Hall _ Hkey) in Hbody. destruct Hbody; discriminate.
Qed.

End UpdateData.

Lemma inactive_event_contributes_nothing_witness :
  exists occs,
    expand_recurring_event 10
      (sample_event "weekly" (Some 1) (Some (ymd 2024 11 6))
                    (Some (ymd 2024 12 18)))
      (ymd 2025 1 1) (ymd 2025 1 31) = Ok occs /\
    occs = [].
Proof.
  eexists. split; [run|].
  refine (inactive_event_contributes_nothing 10
            (sample_event "weekly" (Some 1) (Some (ymd 2024 11 6))
                          (Some (ymd 2024 12 18)))
            (ymd 2024 11 6) (ymd 2025 1 1) (ymd 2025 1 31) _ eq_refl _ _).
  - left. exists (ymd 2024 12 18). split; reflexivity.
  - run.
Defined.

Lemma weekly_expandable :
  expandable (sample_event "weekly" (Some 1) (Some (ymd 2024 12 4)) None).
Proof.
  intros _. exists (ymd 2024 12 4). split; [reflexivity|].
  split; [concrete_date|positive_interval].
Qed.

Lemma narrower_window_restricts_query_witness :
  exists occs occs',
    get_events_in_range 10 january_store (ymd 2025 1 1) (ymd 2025 1 31) None
      = Ok occs /\
    get_events_in_range 10 january_store (ymd 2025 1 2) (ymd 2025 1 15) None
      = Ok occs' /\
    occs' = filter (fun o => dt_leb (ymd 2025 1 2) (occ_date o) = true /\
                             dt_leb (occ_date o) (ymd 2025 1 15) = true) occs.
Proof.
  eexists. eexists. split; [run|]. split; [run|].
  refine (narrower_window_restricts_query 10 10 january_store
            (ymd 2025 1 1) (ymd 2025 1 31) (ymd 2025 1 2) (ymd 2025 1 15)
            None _ _ _ eq_refl eq_refl _ _).
  - constructor; [apply one_off_expandable|].
    constructor; [apply weekly_expandable|constructor].
  - run.
  - run.
Defined.

Lemma update_request_sets_the_fields_of_the_body_witness :
  build_update_data (fun v : Z => Some v) (fun v => negb (v =? 0)) (fun z => z)
    sample_body
  = Some [("amount", 12); ("is_recurring", 1)]%list /\
  map fst (kept_items [("amount", 12); ("is_recurring", 1)]%list)
  = List.filter (in_body sample_body) allowed_fields.
Proof.
  split; [run|].
  exact (proj1 (proj2
           (update_request_sets_the_fields_of_the_body
              (fun v : Z => Some v) (fun v => negb (v =? 0)) (fun z => z)
              sample_body
              [("amount", 12); ("is_recurring", 1)]%list 7 ltac:(run)))).
Defined.
